(** * Onion-skin frame cache and background pre-caching

    A shallow embedding of [cache.py] and [async_cache.py] of the
    "B onion skin" add-on (with [get_frame_range] from [drawing.py]),
    followed by the properties of the frame cache and of the pre-cache
    scheduler.

    Frames are Python integers ([Z]).  The module globals of [cache.py]
    are gathered in the record [cache_state]; every function that
    mutates a global takes the state and returns the new one. *)

From stdpp Require Import gmap list sorting strings.

Local Open Scope Z_scope.

(** ** Geometry as the cache receives it *)

(** A vertex is a world-space position.  The source stores float32
    coordinates; the cache never computes with them, so integers stand in
    for the three coordinates. *)
Definition vertex : Type := Z * Z * Z.

(** An index tuple: a pair (edge) or a triple (triangle) of vertex numbers. *)
Definition index : Type := list nat.

(** The [prim_type] string handed to [batch_for_shader]. *)
Inductive prim_type := LINES | TRIS.

(** [verts] and [indices] "can be numpy arrays or lists". *)
Inductive py_seq (A : Type) :=
| NdArray (l : list A)
| PyList (l : list A).
Arguments NdArray {A} l.
Arguments PyList {A} l.

Definition tolist {A} (x : py_seq A) : list A :=
  match x with NdArray l | PyList l => l end.

(** [len(x)]; for an array of rows, [x.size == 0] holds exactly when there
    is no row. *)
Definition py_len {A} (x : py_seq A) : nat := length (tolist x).

Definition is_ndarray {A} (x : py_seq A) : bool :=
  match x with NdArray _ => true | PyList _ => false end.

(** The tuple stored per frame: [(verts, indices, prim_type)]. *)
Definition frame_data : Type := py_seq vertex * py_seq index * prim_type.

(** Outcome of a call that may raise. *)
Inductive py_result (A : Type) :=
| Returns (a : A)
| Raises.
Arguments Returns {A} a.
Arguments Raises {A}.

(** ** [collections.OrderedDict] keyed by frame

    An association list in insertion order, oldest binding first; keys
    are unique. *)
Module OD.
Section ordered_dict.
Context {V : Type}.
Implicit Types (d : list (Z * V)) (k : Z) (v : V).

Definition keys d : list Z := d.*1.

(** [k in d] *)
Definition mem k d : bool := bool_decide (k ∈ keys d).

(** [d.get(k)] *)
Fixpoint get k d : option V :=
  match d with
  | [] => None
  | (k', v') :: r => if decide (k' = k) then Some v' else get k r
  end.

(** [d[k] = v]: an existing key keeps its position, a new key goes last. *)
Fixpoint set k v d : list (Z * V) :=
  match d with
  | [] => [(k, v)]
  | (k', v') :: r =>
      if decide (k' = k) then (k, v) :: r else (k', v') :: set k v r
  end.

(** [del d[k]] *)
Definition del k d : list (Z * V) := filter (λ p, p.1 ≠ k) d.

(** [d.move_to_end(k)] ([KeyError] when absent; the one call site has
    just stored [k]). *)
Definition move_to_end k d : list (Z * V) :=
  match get k d with
  | Some v => del k d ++ [(k, v)]
  | None => d
  end.

(** [next(iter(d))] *)
Definition first d : option Z := head (keys d).
End ordered_dict.
End OD.

(** ** [cache.py] *)

Section cache.
(** [HAS_NUMPY], fixed when the module is imported. *)
Context (HAS_NUMPY : bool).
(** [gpu_extras.batch.batch_for_shader] with the shared shader:
    [None] stands for a raised [Exception]. *)
Context {gpu_batch : Type}.
Context (batch_for_shader :
           prim_type → list vertex → list index → option gpu_batch).

(** The module globals.  [_shader] and [_object_hashes] (only ever
    cleared) carry no cache content and are left out. *)
Record cache_state := CacheState {
  _frame_cache : list (Z * frame_data);   (* OrderedDict *)
  _batch_cache : gmap Z gpu_batch;
  _max_cache_size : nat;
  _last_frame : Z;
  _cache_hits : Z;
  _cache_misses : Z;
  _dirty_frames : gset Z;
}.

Definition initial_state : cache_state :=
  {| _frame_cache := []; _batch_cache := ∅; _max_cache_size := 500%nat;
     _last_frame := -999; _cache_hits := 0; _cache_misses := 0;
     _dirty_frames := ∅ |}.

Definition clear_cache (s : cache_state) : cache_state :=
  {| _frame_cache := []; _batch_cache := ∅;
     _max_cache_size := _max_cache_size s;
     _last_frame := -999; _cache_hits := 0; _cache_misses := 0;
     _dirty_frames := ∅ |}.

Definition get_last_frame (s : cache_state) : Z := _last_frame s.

Definition set_last_frame (s : cache_state) (frame : Z) : cache_state :=
  {| _frame_cache := _frame_cache s; _batch_cache := _batch_cache s;
     _max_cache_size := _max_cache_size s;
     _last_frame := frame; _cache_hits := _cache_hits s;
     _cache_misses := _cache_misses s; _dirty_frames := _dirty_frames s |}.

Definition is_frame_cached (s : cache_state) (frame : Z) : bool :=
  if bool_decide (frame ∈ _dirty_frames s) then false
  else OD.mem frame (_frame_cache s).

Definition mark_frame_dirty (s : cache_state) (frame : Z) : cache_state :=
  {| _frame_cache := _frame_cache s;
     _batch_cache := delete frame (_batch_cache s);
     _max_cache_size := _max_cache_size s;
     _last_frame := _last_frame s; _cache_hits := _cache_hits s;
     _cache_misses := _cache_misses s;
     _dirty_frames := {[frame]} ∪ _dirty_frames s |}.

Definition mark_all_dirty (s : cache_state) : cache_state :=
  {| _frame_cache := _frame_cache s;
     _batch_cache := ∅;
     _max_cache_size := _max_cache_size s;
     _last_frame := _last_frame s; _cache_hits := _cache_hits s;
     _cache_misses := _cache_misses s;
     _dirty_frames := _dirty_frames s ∪ list_to_set (OD.keys (_frame_cache s)) |}.

(** The "Handle empty data" test of [add_to_cache]: [true] when the
    call returns early. *)
Definition empty_data (verts : py_seq vertex) (indices : py_seq index) : bool :=
  if HAS_NUMPY then
    if is_ndarray verts then bool_decide (py_len verts = 0%nat)
    else bool_decide (py_len verts = 0%nat)
  else
    bool_decide (py_len verts = 0%nat) || bool_decide (py_len indices = 0%nat).

(** The [while len(_frame_cache) > _max_cache_size] loop.  Every turn
    deletes one binding, so [length fc] turns are enough. *)
Fixpoint evict_lru (fuel cap : nat) (fc : list (Z * frame_data))
    (bc : gmap Z gpu_batch) : list (Z * frame_data) * gmap Z gpu_batch :=
  match fuel with
  | O => (fc, bc)
  | S fuel' =>
      if bool_decide (cap < length fc)%nat then
        match OD.first fc with
        | Some old_frame =>
            evict_lru fuel' cap (OD.del old_frame fc) (delete old_frame bc)
        | None => (fc, bc)
        end
      else (fc, bc)
  end.

Definition add_to_cache (s : cache_state) (frame : Z)
    (verts : option (py_seq vertex)) (indices : option (py_seq index))
    (prim : prim_type) : cache_state :=
  match verts, indices with
  | Some v, Some i =>
      if empty_data v i then s
      else
        let misses := _cache_misses s + 1 in
        let fc := OD.move_to_end frame (OD.set frame (v, i, prim) (_frame_cache s)) in
        let dirty := _dirty_frames s ∖ {[frame]} in
        let bc := delete frame (_batch_cache s) in
        let '(fc', bc') := evict_lru (length fc) (_max_cache_size s) fc bc in
        {| _frame_cache := fc'; _batch_cache := bc';
           _max_cache_size := _max_cache_size s;
           _last_frame := _last_frame s; _cache_hits := _cache_hits s;
           _cache_misses := misses; _dirty_frames := dirty |}
  | _, _ => s
  end.

(** The list conversion of [get_batch]; [indices.tolist()] on a plain
    list raises [AttributeError]. *)
Definition to_lists (verts : py_seq vertex) (indices : py_seq index)
    : py_result (list vertex * list index) :=
  if HAS_NUMPY && is_ndarray verts then
    if is_ndarray indices then Returns (tolist verts, tolist indices)
    else Raises
  else Returns (tolist verts, tolist indices).

Definition with_batch (s : cache_state) (bc : gmap Z gpu_batch) (hits : Z)
    : cache_state :=
  {| _frame_cache := _frame_cache s; _batch_cache := bc;
     _max_cache_size := _max_cache_size s;
     _last_frame := _last_frame s; _cache_hits := hits;
     _cache_misses := _cache_misses s; _dirty_frames := _dirty_frames s |}.

Definition get_batch (s : cache_state) (frame : Z)
    : py_result (option gpu_batch) * cache_state :=
  if bool_decide (frame ∈ _dirty_frames s) then (Returns None, s)
  else
    match _batch_cache s !! frame with
    | Some b => (Returns (Some b), with_batch s (_batch_cache s) (_cache_hits s + 1))
    | None =>
        match OD.get frame (_frame_cache s) with
        | None => (Returns None, s)
        | Some (verts, indices, prim) =>
            match to_lists verts indices with
            | Raises => (Raises, s)
            | Returns (verts_list, indices_list) =>
                match batch_for_shader prim verts_list indices_list with
                | Some batch =>
                    (Returns (Some batch),
                     with_batch s (<[frame := batch]> (_batch_cache s))
                                (_cache_hits s + 1))
                | None => (Returns None, s)
                end
            end
        end
    end.

Definition get_cache_size (s : cache_state) : nat := length (_frame_cache s).

(** [get_cache_stats] without the floating-point [hit_rate]. *)
Record cache_stats := CacheStats {
  stat_size : nat; stat_max_size : nat;
  stat_hits : Z; stat_misses : Z; stat_dirty : nat;
}.

Definition get_cache_stats (s : cache_state) : cache_stats :=
  {| stat_size := length (_frame_cache s);
     stat_max_size := _max_cache_size s;
     stat_hits := _cache_hits s; stat_misses := _cache_misses s;
     stat_dirty := size (_dirty_frames s) |}.

Definition invalidate_frames_near (s : cache_state) (center_frame radius : Z)
    : cache_state :=
  foldl (λ st frame,
           if bool_decide (Z.abs (frame - center_frame) ≤ radius)
           then mark_frame_dirty st frame else st)
        s (OD.keys (_frame_cache s)).

(** One turn of the removal loop of [evict_distant_frames]. *)
Definition remove_frame (s : cache_state) (frame : Z) : cache_state :=
  {| _frame_cache := OD.del frame (_frame_cache s);
     _batch_cache := delete frame (_batch_cache s);
     _max_cache_size := _max_cache_size s;
     _last_frame := _last_frame s; _cache_hits := _cache_hits s;
     _cache_misses := _cache_misses s;
     _dirty_frames := _dirty_frames s |}.

Definition evict_distant_frames (s : cache_state) (current_frame keep_radius : Z)
    : cache_state :=
  let to_remove :=
    filter (λ frame, keep_radius < Z.abs (frame - current_frame))
           (OD.keys (_frame_cache s)) in
  foldl remove_frame s to_remove.
End cache.

Arguments cache_state : clear implicits.
Arguments initial_state {gpu_batch}.

(** ** [drawing.get_frame_range] and [async_cache.py] *)

(** The fields of [scene.onion_skin_settings] the scheduler reads. *)
Record settings := Settings {
  enabled : bool;
  frames_before : Z;
  frames_after : Z;
  frame_step : Z;
  use_frame_range : bool;
  frame_range_start : Z;
  frame_range_end : Z;
}.

(** The scene: [onion_skin_settings] is [None] when the attribute is
    missing; [onion_skin_objects] is the tracked-object collection, of
    which only the size matters here. *)
Record scene := Scene {
  frame_current : Z;
  frame_start : Z;
  frame_end : Z;
  onion_skin_settings : option settings;
  onion_skin_objects : nat;
}.

Definition get_frame_range (st : settings) (sc : scene) : Z * Z :=
  if use_frame_range st then (frame_range_start st, frame_range_end st)
  else (frame_start sc, frame_end sc).

(** Python's [range(start, stop, step)]; a zero step raises [ValueError]. *)
Definition py_range (start stop step : Z) : py_result (list Z) :=
  if decide (step = 0) then Raises
  else if decide (0 < step) then
    Returns ((λ i, start + i * step) <$> seqZ 0 ((stop - start + step - 1) `div` step))
  else
    Returns ((λ i, start + i * step) <$> seqZ 0 ((start - stop - step - 1) `div` (- step))).

(** [list.sort(key=...)] is stable; a stable insertion sort gives the
    same list. *)
Fixpoint insert_by_key (key : Z → Z) (x : Z) (l : list Z) : list Z :=
  match l with
  | [] => [x]
  | y :: r => if bool_decide (key x ≤ key y) then x :: y :: r
              else y :: insert_by_key key x r
  end.

Definition sort_by_key (key : Z → Z) (l : list Z) : list Z :=
  foldr (insert_by_key key) [] l.

Section async_cache.
Context {gpu_batch : Type}.

Definition get_precache_frames (sc : scene) (c : cache_state gpu_batch)
    (direction : Z) : py_result (list Z) :=
  match onion_skin_settings sc with
  | None => Raises
  | Some st =>
      let current := frame_current sc in
      let '(range_start, range_end) := get_frame_range st sc in
      let step := frame_step st in
      let look_ahead := Z.max (frames_before st) (frames_after st) + 5 in
      match py_range step (look_ahead + 1) step with
      | Raises => Raises
      | Returns offsets =>
          let ahead :=
            if bool_decide (0 ≤ direction) then
              filter (λ f, f ≤ range_end ∧ is_frame_cached c f = false)
                     ((λ i, current + i) <$> offsets)
            else [] in
          let behind :=
            if bool_decide (direction ≤ 0) then
              filter (λ f, range_start ≤ f ∧ is_frame_cached c f = false)
                     ((λ i, current - i) <$> offsets)
            else [] in
          let frames := ahead ++ behind in
          Returns (take 10 (sort_by_key (λ f, Z.abs (f - current)) frames))
      end
  end.

(** What the timer callback hands back: [0.05] (run again in 50 ms) or
    [None] (stop). *)
Inductive timer_result := Again | Stop.

(** Everything one step can read or write: [bpy.context] (usable or
    not), its scene, the cache module and the scheduler's globals. *)
Record world := World {
  context_ok : bool;
  the_scene : scene;
  the_cache : cache_state gpu_batch;
  _pending_frames : list Z;
  _is_caching : bool;
}.

Definition set_is_caching (w : world) (b : bool) : world :=
  {| context_ok := context_ok w; the_scene := the_scene w;
     the_cache := the_cache w; _pending_frames := _pending_frames w;
     _is_caching := b |}.

Definition set_pending (w : world) (l : list Z) : world :=
  {| context_ok := context_ok w; the_scene := the_scene w;
     the_cache := the_cache w; _pending_frames := l;
     _is_caching := _is_caching w |}.

(** [scene.frame_set(frame)] *)
Definition frame_set (w : world) (frame : Z) : world :=
  let sc := the_scene w in
  {| context_ok := context_ok w;
     the_scene := {| frame_current := frame; frame_start := frame_start sc;
                     frame_end := frame_end sc;
                     onion_skin_settings := onion_skin_settings sc;
                     onion_skin_objects := onion_skin_objects sc |};
     the_cache := the_cache w; _pending_frames := _pending_frames w;
     _is_caching := _is_caching w |}.

(** [drawing.cache_frame] of this package is not among the sources: it
    is any function of the world and the frame that returns or raises
    and leaves the world in any state. *)
Context (cache_frame : world → Z → py_result bool * world).

Definition _background_cache_step (w : world) : py_result timer_result * world :=
  if negb (context_ok w) then (Returns Stop, set_is_caching w false)
  else
    match onion_skin_settings (the_scene w) with
    | None => (Returns Stop, set_is_caching w false)
    | Some st =>
        if negb (enabled st) || bool_decide (onion_skin_objects (the_scene w) = 0%nat)
        then (Returns Stop, set_is_caching w false)
        else
          let refill :=
            match _pending_frames w with
            | [] => get_precache_frames (the_scene w) (the_cache w) 0
            | l => Returns l
            end in
          match refill with
          | Raises => (Raises, w)
          | Returns [] => (Returns Stop, set_is_caching (set_pending w []) false)
          | Returns (frame :: rest) =>
              let w1 := set_pending w rest in
              let original_frame := frame_current (the_scene w1) in
              (* try: cache_frame(...)  except Exception: pass *)
              let w2 := (cache_frame w1 frame).2 in
              let w3 :=
                if bool_decide (frame_current (the_scene w2) ≠ original_frame)
                then frame_set w2 original_frame else w2 in
              match _pending_frames w3 with
              | [] => (Returns Stop, set_is_caching w3 false)
              | _ => (Returns Again, w3)
              end
          end
    end.

Definition start_background_caching (w : world) : py_result unit * world :=
  if _is_caching w then (Returns (), w)
  else if negb (context_ok w) then (Raises, w)   (* [context.scene] fails *)
  else
    match onion_skin_settings (the_scene w) with
    | None => (Returns (), w)
    | Some st =>
        if negb (enabled st) then (Returns (), w)
        else
          match get_precache_frames (the_scene w) (the_cache w) 0 with
          | Raises => (Raises, w)
          | Returns [] => (Returns (), set_pending w [])
          | Returns l => (Returns (), set_is_caching (set_pending w l) true)
          end
    end.

Definition stop_background_caching (w : world) : world :=
  set_pending (set_is_caching w false) [].
End async_cache.

Arguments world : clear implicits.

(** ** Sequences of cache operations *)

(** The arguments of one [add_to_cache] call. *)
Record add_call := AddCall {
  call_frame : Z;
  call_verts : option (py_seq vertex);
  call_indices : option (py_seq index);
  call_prim : prim_type;
}.


(** The public operations of the cache module. *)
Inductive cache_op :=
| OpAdd (c : add_call)
| OpGetBatch (frame : Z)
| OpMarkDirty (frame : Z)
| OpMarkAllDirty
| OpInvalidateNear (center radius : Z)
| OpEvictDistant (center keep_radius : Z)
| OpClear.

Section runs.
Context (HAS_NUMPY : bool) {gpu_batch : Type}.
Context (batch_for_shader :
           prim_type → list vertex → list index → option gpu_batch).

Definition do_add (s : cache_state gpu_batch) (c : add_call) : cache_state gpu_batch :=
  add_to_cache HAS_NUMPY s (call_frame c) (call_verts c) (call_indices c)
               (call_prim c).

Definition run_adds (s : cache_state gpu_batch) (calls : list add_call)
    : cache_state gpu_batch :=
  foldl do_add s calls.

Definition run_op (s : cache_state gpu_batch) (op : cache_op) : cache_state gpu_batch :=
  match op with
  | OpAdd c => do_add s c
  | OpGetBatch frame => (get_batch HAS_NUMPY batch_for_shader s frame).2
  | OpMarkDirty frame => mark_frame_dirty s frame
  | OpMarkAllDirty => mark_all_dirty s
  | OpInvalidateNear center radius => invalidate_frames_near s center radius
  | OpEvictDistant center keep_radius => evict_distant_frames s center keep_radius
  | OpClear => clear_cache s
  end.

(** No dirty frame has a built batch. *)
Definition dirty_unbatched (s : cache_state gpu_batch) : Prop :=
  ∀ f, f ∈ _dirty_frames s → _batch_cache s !! f = None.

Definition run_ops (s : cache_state gpu_batch) (ops : list cache_op)
    : cache_state gpu_batch :=
  foldl run_op s ops.
End runs.

(** The bindings of [add_to_cache] right after the store, before the
    eviction loop. *)
Definition stored_last {gpu_batch : Type} (s : cache_state gpu_batch)
    (frame : Z) (data : frame_data) : list (Z * frame_data) :=
  OD.del frame (_frame_cache s) ++ [(frame, data)].


(** ** Concrete inputs for the worked scenarios *)

(** A batch builder that keeps what it is given and fails on an index past
    the end of the vertex buffer. *)
Definition checked_batch : Type := prim_type * list vertex * list index.

Definition checked_batch_for_shader (prim : prim_type) (verts : list vertex)
    (indices : list index) : option checked_batch :=
  if forallb (forallb (λ n, bool_decide (n < length verts)%nat)) indices
  then Some (prim, verts, indices) else None.

(** Three vertices and the one triangle [(0, 1, 2)]. *)
Definition triangle_verts : py_seq vertex := PyList [(0, 0, 0); (1, 0, 0); (0, 1, 0)].
Definition triangle_indices : py_seq index := PyList [[0; 1; 2]%nat].

Definition add_triangle (frame : Z) : add_call :=
  {| call_frame := frame; call_verts := Some triangle_verts;
     call_indices := Some triangle_indices; call_prim := TRIS |}.

(** The default cache after frames [1 .. n] were added in that order. *)
Definition filled (n : Z) : cache_state checked_batch :=
  run_adds true initial_state (add_triangle <$> seqZ 1 n).

(** Onion-skin settings with the given reach and step, no custom range. *)
Definition settings_with (before after step : Z) : settings :=
  {| enabled := true; frames_before := before; frames_after := after;
     frame_step := step; use_frame_range := false;
     frame_range_start := 1; frame_range_end := 250 |}.

(** A scene at [current] whose frame range is [90, 110], with ten ghost
    frames each way, every second frame, and one tracked object. *)
Definition scene_at (current : Z) : scene :=
  {| frame_current := current; frame_start := 90; frame_end := 110;
     onion_skin_settings := Some (settings_with 10 10 2);
     onion_skin_objects := 1 |}.

(** The geometry of the "dirty then redraw" scenario: a second triangle. *)
Definition new_verts : py_seq vertex := PyList [(5, 5, 5); (6, 5, 5); (5, 6, 5)].
Definition new_indices : py_seq index := PyList [[2; 1; 0]%nat].

(** ** Well-formed cache states *)

Section cache_wf.
Context (HAS_NUMPY : bool) {gpu_batch : Type}.

(** What every state built by the module's functions satisfies: the keys
    of the ordered dictionary are unique and every built batch belongs to
    an entry. *)
Definition cache_wf (s : cache_state gpu_batch) : Prop :=
  NoDup (OD.keys (_frame_cache s))
  ∧ ∀ f, is_Some (_batch_cache s !! f) → f ∈ OD.keys (_frame_cache s).

(** Whether an [add_to_cache] call gets past the early returns. *)
Definition stores (c : add_call) : bool :=
  match call_verts c, call_indices c with
  | Some v, Some i => negb (empty_data HAS_NUMPY v i)
  | _, _ => false
  end.
End cache_wf.

(** ** The scheduler's flag, and [handlers.py] *)

Section scheduler.
Context {gpu_batch : Type}.

(** [async_cache.is_caching()] *)
Definition is_caching (w : world gpu_batch) : bool := _is_caching w.

(** The flag is up only while frames are pending. *)
Definition flag_means_pending (w : world gpu_batch) : Prop :=
  _is_caching w = true → _pending_frames w ≠ [].

(** [_background_cache_step] returns early, before it looks at the queue. *)
Definition step_aborts (w : world gpu_batch) : bool :=
  negb (context_ok w)
  || match onion_skin_settings (the_scene w) with
     | None => true
     | Some st => negb (enabled st)
                  || bool_decide (onion_skin_objects (the_scene w) = 0%nat)
     end.

(** [handlers.on_load]: the module-level [_monitored_objects] set it also
    clears is never filled. *)
Definition on_load (w : world gpu_batch) : world gpu_batch :=
  {| context_ok := context_ok w; the_scene := the_scene w;
     the_cache := clear_cache (the_cache w);
     _pending_frames := _pending_frames w; _is_caching := _is_caching w |}.

(** [handlers.on_frame_change]; tagging the viewports for redraw has no
    effect on the state modelled here, and whatever
    [start_background_caching] raises is swallowed. *)
Definition on_frame_change (w : world gpu_batch) : world gpu_batch :=
  match onion_skin_settings (the_scene w) with
  | None => w
  | Some st =>
      if negb (enabled st) then w else (start_background_caching w).2
  end.
End scheduler.

(** ** Tracked objects: [handlers.on_depsgraph_update] and [operators.py] *)

(** [obj.type], as far as the add-on tells types apart. *)
Inductive ob_kind := MESH | ARMATURE | OTHER_TYPE.

Global Instance ob_kind_eq_dec : EqDecision ob_kind.
Proof. solve_decision. Defined.

(** A Blender object: its name (unique among objects) and its type. *)
Record bobject := BObject { ob_name : string; ob_type : ob_kind }.

Global Instance bobject_eq_dec : EqDecision bobject.
Proof. solve_decision. Defined.

(** One entry of [depsgraph.updates]: the name of its [id], when it has
    both, and the two flags. *)
Record depsgraph_update := DepsgraphUpdate {
  upd_name : option string;
  is_updated_geometry : bool;
  is_updated_transform : bool;
}.

(** [obj.type in {'MESH', 'ARMATURE'}] *)
Definition supported (obj : bobject) : bool :=
  match ob_type obj with MESH | ARMATURE => true | OTHER_TYPE => false end.

(** What an operator's [execute] returns. *)
Inductive op_status := FINISHED | CANCELLED.

Section tracked_objects.
Context {gpu_batch : Type}.
(** [obj.children] in the scene graph. *)
Context (children : bobject → list bobject).

(** The inner loop of [on_depsgraph_update]: the mesh children of an
    armature join the monitored names. *)
Definition add_mesh_children (monitored : gset string) (l : list bobject)
    : gset string :=
  foldl (λ (m : gset string) child,
           if bool_decide (ob_type child = MESH) then m ∪ {[ob_name child]} else m)
        monitored l.

(** One turn of its outer loop; an item's object is possibly unset. *)
Definition monitor_item (include_children : bool) (monitored : gset string)
    (item : option bobject) : gset string :=
  match item with
  | None => monitored
  | Some obj =>
      let monitored := monitored ∪ {[ob_name obj]} in
      if bool_decide (ob_type obj = ARMATURE) && include_children
      then add_mesh_children monitored (children obj)
      else monitored
  end.

(** The names [on_depsgraph_update] collects in [monitored]; [items] is
    [scene.onion_skin_objects]. *)
Definition monitored_names (include_children : bool)
    (items : list (option bobject)) : gset string :=
  foldl (monitor_item include_children) ∅ items.

(** The scan of [depsgraph.updates], up to the [break]. *)
Definition needs_invalidate (monitored : gset string)
    (updates : list depsgraph_update) : bool :=
  existsb (λ u, match upd_name u with
                | Some name =>
                    bool_decide (name ∈ monitored)
                    && (is_updated_geometry u || is_updated_transform u)
                | None => false
                end) updates.

Definition on_depsgraph_update (st : option settings) (include_children : bool)
    (items : list (option bobject)) (updates : list depsgraph_update)
    (s : cache_state gpu_batch) : cache_state gpu_batch :=
  match st with
  | None => s
  | Some st =>
      if negb (enabled st) then s
      else if needs_invalidate (monitored_names include_children items) updates
      then mark_all_dirty s else s
  end.

(** [{item.object for item in scene.onion_skin_objects if item.object}] *)
Definition existing_objects (items : list (option bobject)) : list bobject :=
  omap id items.

(** [ONION_OT_add_object.execute]: the new collection, the cache and the
    count it reports. *)
Definition add_object_execute (items : list (option bobject))
    (selected_objects : list bobject) (s : cache_state gpu_batch)
    : list (option bobject) * cache_state gpu_batch * nat :=
  let existing := existing_objects items in
  let new := filter (λ obj, supported obj = true ∧ obj ∉ existing)
                    selected_objects in
  let added := length new in
  (items ++ (Some <$> new),
   if bool_decide (0 < added)%nat then clear_cache s else s,
   added).

(** [ONION_OT_add_from_picker.execute]: status, [settings.pick_object]
    afterwards, the collection and the cache. *)
Definition add_from_picker_execute (pick_object : option bobject)
    (items : list (option bobject)) (s : cache_state gpu_batch)
    : op_status * option bobject * list (option bobject) * cache_state gpu_batch :=
  match pick_object with
  | None => (CANCELLED, pick_object, items, s)
  | Some obj =>
      if negb (supported obj) then (CANCELLED, None, items, s)
      else if bool_decide (obj ∉ existing_objects items)
      then (FINISHED, None, items ++ [Some obj], clear_cache s)
      else (FINISHED, None, items, s)
  end.

(** [ONION_OT_remove_object.execute] *)
Definition remove_object_execute (index : Z) (items : list (option bobject))
    (s : cache_state gpu_batch) : list (option bobject) * cache_state gpu_batch :=
  if bool_decide (0 ≤ index < Z.of_nat (length items))
  then (delete (Z.to_nat index) items, clear_cache s)
  else (items, s).

(** [ONION_OT_clear_all.execute] *)
Definition clear_all_execute (items : list (option bobject))
    (s : cache_state gpu_batch) : list (option bobject) * cache_state gpu_batch :=
  ([], clear_cache s).

(** [ONION_OT_remove_selected.execute]: the collection, the active index
    and the cache. *)
Definition remove_selected_execute (items : list (option bobject))
    (onion_skin_active_index : Z) (s : cache_state gpu_batch)
    : list (option bobject) * Z * cache_state gpu_batch :=
  let index := onion_skin_active_index in
  if bool_decide (0 ≤ index < Z.of_nat (length items)) then
    let items' := delete (Z.to_nat index) items in
    let active :=
      if bool_decide (Z.of_nat (length items') ≤ index)
         && bool_decide (0 < length items')%nat
      then Z.of_nat (length items') - 1 else index in
    (items', active, clear_cache s)
  else (items, index, s).

(** [ONION_OT_clear_cache.execute] *)
Definition clear_cache_execute (s : cache_state gpu_batch) : cache_state gpu_batch :=
  clear_cache s.
End tracked_objects.

(** ** Baking: [ONION_OT_bake_cache] and [ONION_OT_rebake_cache] *)

Section baking.
Context {gpu_batch : Type}.
Context (cache_frame : world gpu_batch → Z → py_result bool * world gpu_batch).

Definition set_cache (w : world gpu_batch) (c : cache_state gpu_batch)
    : world gpu_batch :=
  {| context_ok := context_ok w; the_scene := the_scene w; the_cache := c;
     _pending_frames := _pending_frames w; _is_caching := _is_caching w |}.

(** The loop of [ONION_OT_bake_cache.execute]; an exception of
    [cache_frame] ends it. *)
Fixpoint bake_loop (frames : list Z) (w : world gpu_batch) (baked : nat)
    : py_result nat * world gpu_batch :=
  match frames with
  | [] => (Returns baked, w)
  | frame :: rest =>
      if is_frame_cached (the_cache w) frame then bake_loop rest w baked
      else
        match cache_frame w frame with
        | (Returns true, w') => bake_loop rest w' (S baked)
        | (Returns false, w') => bake_loop rest w' baked
        | (Raises, w') => (Raises, w')
        end
  end.

(** Returns the number of frames it reports as baked. *)
Definition bake_cache_execute (w : world gpu_batch) : py_result nat * world gpu_batch :=
  match onion_skin_settings (the_scene w) with
  | None => (Raises, w)
  | Some st =>
      let '(start, end_) := get_frame_range st (the_scene w) in
      let step := frame_step st in
      let original_frame := frame_current (the_scene w) in
      match py_range start (end_ + 1) step with
      | Raises => (Raises, w)
      | Returns frames =>
          match bake_loop frames w 0 with
          | (Returns baked, w') => (Returns baked, frame_set w' original_frame)
          | (Raises, w') => (Raises, w')
          end
      end
  end.


End baking.

(** A stand-in for [drawing.cache_frame] in worked examples: it moves the
    scene to the frame and stores a triangle for it. *)
Definition moving_cache_frame (w : world checked_batch) (frame : Z)
    : py_result bool * world checked_batch :=
  (Returns true,
   set_cache (frame_set w frame) (do_add true (the_cache w) (add_triangle frame))).

(** The scene at frame 100 with a default cache, the queue [l] and the
    flag [flag]. *)
Definition world_at_100 (l : list Z) (flag : bool) : world checked_batch :=
  {| context_ok := true; the_scene := scene_at 100; the_cache := initial_state;
     _pending_frames := l; _is_caching := flag |}.

(** ** [onion_anim/cache.py]: the cache [drawing.py] is written against

    The same store without the dirty set; geometry always arrives as
    lists, and [get_batch] lets an exception of [batch_for_shader] pass. *)
Module V1.
Section cache_v1.
Context {gpu_batch : Type}.
Context (batch_for_shader :
           prim_type → list vertex → list index → option gpu_batch).

Record cache_state := CacheState {
  _frame_cache : list (Z * frame_data);   (* OrderedDict *)
  _batch_cache : gmap Z gpu_batch;
  _max_cache_size : nat;
  _last_frame : Z;
  _cache_hits : Z;
  _cache_misses : Z;
}.

Definition initial_state : cache_state :=
  {| _frame_cache := []; _batch_cache := ∅; _max_cache_size := 500%nat;
     _last_frame := -999; _cache_hits := 0; _cache_misses := 0 |}.

Definition clear_cache (s : cache_state) : cache_state :=
  {| _frame_cache := []; _batch_cache := ∅;
     _max_cache_size := _max_cache_size s;
     _last_frame := -999; _cache_hits := 0; _cache_misses := 0 |}.

Definition get_last_frame (s : cache_state) : Z := _last_frame s.

Definition set_last_frame (s : cache_state) (frame : Z) : cache_state :=
  {| _frame_cache := _frame_cache s; _batch_cache := _batch_cache s;
     _max_cache_size := _max_cache_size s;
     _last_frame := frame; _cache_hits := _cache_hits s;
     _cache_misses := _cache_misses s |}.

Definition is_frame_cached (s : cache_state) (frame : Z) : bool :=
  OD.mem frame (_frame_cache s).

(** Python truth of a list-or-[None]: present and not empty. *)
Definition truthy {A} (x : option (list A)) : bool :=
  match x with Some (_ :: _) => true | _ => false end.

Definition add_to_cache (s : cache_state) (frame : Z)
    (verts : option (list vertex)) (indices : option (list index))
    (prim : prim_type) : cache_state :=
  match verts, indices with
  | Some v, Some i =>
      if negb (truthy verts) || negb (truthy indices) then s
      else
        let misses := _cache_misses s + 1 in
        let fc := OD.move_to_end frame
                    (OD.set frame (PyList v, PyList i, prim) (_frame_cache s)) in
        let bc := delete frame (_batch_cache s) in
        let '(fc', bc') := evict_lru (length fc) (_max_cache_size s) fc bc in
        {| _frame_cache := fc'; _batch_cache := bc';
           _max_cache_size := _max_cache_size s;
           _last_frame := _last_frame s; _cache_hits := _cache_hits s;
           _cache_misses := misses |}
  | _, _ => s
  end.

Definition get_batch (s : cache_state) (frame : Z)
    : py_result (option gpu_batch) * cache_state :=
  match _batch_cache s !! frame with
  | Some b =>
      (Returns (Some b),
       {| _frame_cache := _frame_cache s; _batch_cache := _batch_cache s;
          _max_cache_size := _max_cache_size s; _last_frame := _last_frame s;
          _cache_hits := _cache_hits s + 1; _cache_misses := _cache_misses s |})
  | None =>
      match OD.get frame (_frame_cache s) with
      | None => (Returns None, s)
      | Some (verts, indices, prim) =>
          match batch_for_shader prim (tolist verts) (tolist indices) with
          | Some batch =>
              (Returns (Some batch),
               {| _frame_cache := _frame_cache s;
                  _batch_cache := <[frame := batch]> (_batch_cache s);
                  _max_cache_size := _max_cache_size s;
                  _last_frame := _last_frame s;
                  _cache_hits := _cache_hits s + 1;
                  _cache_misses := _cache_misses s |})
          | None => (Raises, s)
          end
      end
  end.

Definition get_cache_size (s : cache_state) : nat := length (_frame_cache s).
End cache_v1.
Arguments cache_state : clear implicits.
Arguments initial_state {gpu_batch}.
End V1.

(** ** [onion_anim/drawing.py] *)

(** The fields of [onion_skin_settings] that [drawing.py] reads besides
    those of [settings]. *)
Record draw_options := DrawOptions {
  show_before : bool;
  show_after : bool;
  include_children : bool;
  use_wireframe : bool;
}.

(** The second component of a needed frame. *)
Inductive ghost_side := Before | After.

Section drawing.
Context {gpu_batch : Type}.
(** [obj.children] in the scene graph. *)
Context (children : bobject → list bobject).
(** Python floats stay abstract: [one_over n] is [1.0 / n] and
    [times i x] is [i * x] for an integer [i]. *)
Context {float : Type} (one_over : Z → float) (times : Z → float → float).

(** The inner loop of [get_mesh_objects] over an armature's children. *)
Definition add_unseen_meshes (acc : list bobject * gset string)
    (l : list bobject) : list bobject * gset string :=
  foldl (λ '(meshes, seen) child,
           if bool_decide (ob_type child = MESH)
              && bool_decide (ob_name child ∉ seen)
           then (meshes ++ [child], seen ∪ {[ob_name child]})
           else (meshes, seen))
        acc l.

(** One turn of its outer loop. *)
Definition collect_item (include : bool) (acc : list bobject * gset string)
    (item : option bobject) : list bobject * gset string :=
  let '(meshes, seen) := acc in
  match item with
  | None => acc
  | Some obj =>
      if bool_decide (ob_name obj ∈ seen) then acc
      else
        match ob_type obj with
        | MESH => (meshes ++ [obj], seen ∪ {[ob_name obj]})
        | ARMATURE =>
            if include then add_unseen_meshes acc (children obj) else acc
        | OTHER_TYPE => acc
        end
  end.

Definition get_mesh_objects (opts : draw_options)
    (items : list (option bobject)) : list bobject :=
  (foldl (collect_item (include_children opts)) ([], ∅) items).1.

(** The third component of a needed frame, [i * inv_max]: a float, or the
    integer product when [inv_max] is the integer 0. *)
Inductive py_number := PyFloat (x : float) | PyInt (n : Z).

Definition inv_max_of (max_frames : Z) : py_number :=
  if bool_decide (0 < max_frames) then PyFloat (one_over max_frames) else PyInt 0.

Definition scaled (i : Z) (inv_max : py_number) : py_number :=
  match inv_max with
  | PyFloat x => PyFloat (times i x)
  | PyInt n => PyInt (i * n)
  end.

Definition get_needed_frames (current : Z) (st : settings) (opts : draw_options)
    (sc : scene) : py_result (list (Z * ghost_side * py_number * Z)) :=
  let '(range_start, range_end) := get_frame_range st sc in
  if use_frame_range st
     && (bool_decide (current < range_start) || bool_decide (range_end < current))
  then Returns []
  else
    let step := frame_step st in
    let before :=
      if show_before opts then
        let max_before := frames_before st in
        let inv_max := inv_max_of max_before in
        match py_range step (max_before + 1) step with
        | Raises => Raises
        | Returns offsets =>
            Returns ((λ i, (current - i, Before, scaled i inv_max, i))
                       <$> filter (λ i, range_start ≤ current - i) offsets)
        end
      else Returns [] in
    match before with
    | Raises => Raises
    | Returns frames_b =>
        if show_after opts then
          let max_after := frames_after st in
          let inv_max := inv_max_of max_after in
          match py_range step (max_after + 1) step with
          | Raises => Raises
          | Returns offsets =>
              Returns (frames_b ++
                       ((λ i, (current + i, After, scaled i inv_max, i))
                          <$> filter (λ i, current + i ≤ range_end) offsets))
          end
        else Returns frames_b
    end.

(** The state [cache_frame] and [ensure_frames_cached] work on. *)
Record draw_world := DrawWorld {
  dw_scene : scene;
  dw_cache : V1.cache_state gpu_batch;
}.

(** [scene.frame_set(frame)] *)
Definition dw_frame_set (w : draw_world) (frame : Z) : draw_world :=
  let sc := dw_scene w in
  {| dw_scene := {| frame_current := frame; frame_start := frame_start sc;
                    frame_end := frame_end sc;
                    onion_skin_settings := onion_skin_settings sc;
                    onion_skin_objects := onion_skin_objects sc |};
     dw_cache := dw_cache w |}.

Definition dw_set_cache (w : draw_world) (c : V1.cache_state gpu_batch)
    : draw_world :=
  {| dw_scene := dw_scene w; dw_cache := c |}.

(** [extract_all_meshes_merged] on the depsgraph evaluated at the scene's
    frame: Blender's evaluation and the array work are outside the model.
    It hands back [(None, None, None)] or two lists and a primitive type. *)
Context (extract_all_meshes_merged :
           list bobject → scene → bool →
           option (list vertex) * option (list index) * prim_type).

Definition cache_frame (opts : draw_options) (items : list (option bobject))
    (w : draw_world) (frame : Z) : bool * draw_world :=
  if V1.is_frame_cached (dw_cache w) frame then (true, w)
  else
    match get_mesh_objects opts items with
    | [] => (false, w)
    | objects =>
        let w1 := dw_frame_set w frame in
        let '(verts, indices, prim) :=
          extract_all_meshes_merged objects (dw_scene w1) (use_wireframe opts) in
        if V1.truthy verts && V1.truthy indices
        then (true, dw_set_cache w1 (V1.add_to_cache (dw_cache w1) frame verts
                                                     indices prim))
        else (false, w1)
    end.

Definition ensure_frames_cached (st : settings) (opts : draw_options)
    (items : list (option bobject)) (w : draw_world) : py_result unit * draw_world :=
  let current := frame_current (dw_scene w) in
  if bool_decide (current = V1.get_last_frame (dw_cache w)) then (Returns (), w)
  else
    let w0 := dw_set_cache w (V1.set_last_frame (dw_cache w) current) in
    let original_frame := current in
    match get_needed_frames current st opts (dw_scene w0) with
    | Raises => (Raises, w0)
    | Returns needed =>
        let w1 := foldl (λ wi '(frame, _, _, _), (cache_frame opts items wi frame).2)
                        w0 needed in
        (Returns (),
         if bool_decide (frame_current (dw_scene w1) ≠ original_frame)
         then dw_frame_set w1 original_frame else w1)
    end.
End drawing.

Arguments draw_world : clear implicits.

Section collected.
Context (children : bobject → list bobject).

(** What the pair (meshes, seen) satisfies all along the scan of [items]. *)
Definition collected (include : bool) (items : list (option bobject))
    (acc : list bobject * gset string) : Prop :=
  (∀ name, name ∈ acc.2 ↔ name ∈ ob_name <$> acc.1)
  ∧ NoDup (ob_name <$> acc.1)
  ∧ ∀ m, m ∈ acc.1 →
      ob_type m = MESH
      ∧ (Some m ∈ items
         ∨ ∃ arm, Some arm ∈ items ∧ ob_type arm = ARMATURE ∧ include = true
                  ∧ m ∈ children arm).
End collected.

(** ** More concrete inputs for the worked scenarios *)

(** A [cache_frame] that fails after moving the scene. *)
Definition failing_cache_frame (w : world checked_batch) (frame : Z)
    : py_result bool * world checked_batch :=
  (Raises, frame_set w frame).


(** A scene at frame 100, range [90, 110], with three ghost frames each
    way, every second frame. *)
Definition short_reach_scene : scene :=
  {| frame_current := 100; frame_start := 90; frame_end := 110;
     onion_skin_settings := Some (settings_with 3 3 2);
     onion_skin_objects := 1 |}.

Definition all_shown : draw_options :=
  {| show_before := true; show_after := true; include_children := true;
     use_wireframe := false |}.

(** Exact fractions standing in for floats: [(a, b)] is [a / b]. *)
Definition fraction : Type := Z * Z.
Definition fraction_one_over (n : Z) : fraction := (1, n).
Definition fraction_times (i : Z) (x : fraction) : fraction := (i * x.1, x.2).

(** A cube, and a rig with a body mesh and a control shape as children. *)
Definition cube : bobject := {| ob_name := "Cube"; ob_type := MESH |}.
Definition rig : bobject := {| ob_name := "Rig"; ob_type := ARMATURE |}.
Definition body : bobject := {| ob_name := "Body"; ob_type := MESH |}.
Definition lamp : bobject := {| ob_name := "Lamp"; ob_type := OTHER_TYPE |}.

Definition rig_children (obj : bobject) : list bobject :=
  if decide (obj = rig) then [body; lamp] else [].

(** An extraction that always finds the one triangle. *)
Definition triangle_extract (objects : list bobject) (sc : scene) (wireframe : bool)
    : option (list vertex) * option (list index) * prim_type :=
  (Some (tolist triangle_verts), Some (tolist triangle_indices), TRIS).

(** The scene of [short_reach_scene] with an empty older cache. *)
Definition fresh_draw_world : draw_world checked_batch :=
  {| dw_scene := short_reach_scene; dw_cache := V1.initial_state |}.

(** ** Facts about the ordered dictionary *)

Lemma filter_iff_elem_of {A} (P Q : A → Prop)
    `{!∀ x, Decision (P x), !∀ x, Decision (Q x)} (l : list A) :
  (∀ x, x ∈ l → P x ↔ Q x) → filter P l = filter Q l.
Proof.
  induction l as [|a l IH]; intros Hiff; [done|].
  rewrite !filter_cons. rewrite IH by (intros x Hx; apply Hiff; by right).
  apply decide_ext, Hiff. left.
Qed.

Section od_facts.
Context {V : Type}.
Implicit Types (d : list (Z * V)) (k : Z) (v : V).

Lemma od_keys_del k d : OD.keys (OD.del k d) = filter (λ x, x ≠ k) (OD.keys d).
Proof.
  unfold OD.keys, OD.del. induction d as [|[k' v'] d IH]; [done|].
  rewrite filter_cons. csimpl. rewrite filter_cons. simpl.
  destruct (decide (k' ≠ k)); csimpl; by rewrite IH.
Qed.

Lemma od_not_in_del k d : k ∉ OD.keys (OD.del k d).
Proof. rewrite od_keys_del. intros [H _]%list_elem_of_filter. done. Qed.

Lemma od_del_fresh k d : k ∉ OD.keys d → OD.del k d = d.
Proof.
  unfold OD.keys, OD.del. induction d as [|[k' v'] d IH]; [done|].
  intros Hk. simpl in Hk. apply not_elem_of_cons in Hk as [Hne Hk].
  rewrite filter_cons. simpl. destruct (decide (k' ≠ k)); [|done].
  by rewrite IH.
Qed.

Lemma od_del_head k v d : k ∉ OD.keys d → OD.del k ((k, v) :: d) = d.
Proof.
  intros Hk. unfold OD.del. rewrite filter_cons. simpl.
  destruct (decide (k ≠ k)); [done|]. by apply od_del_fresh.
Qed.

Lemma od_length_del k d : (length (OD.del k d) ≤ length d)%nat.
Proof. apply length_filter. Qed.

Lemma od_length_del_head k v d :
  (length (OD.del k ((k, v) :: d)) ≤ length d)%nat.
Proof.
  unfold OD.del. rewrite filter_cons. simpl.
  destruct (decide (k ≠ k)); [done|]. apply length_filter.
Qed.

Lemma od_get_set k v d : OD.get k (OD.set k v d) = Some v.
Proof.
  induction d as [|[k' v'] d IH]; simpl.
  - by rewrite decide_True.
  - destruct (decide (k' = k)); simpl.
    + by rewrite decide_True.
    + by rewrite decide_False.
Qed.

Lemma od_del_set k v d : OD.del k (OD.set k v d) = OD.del k d.
Proof.
  unfold OD.del. induction d as [|[k' v'] d IH]; simpl.
  - rewrite filter_cons. simpl. by case_decide.
  - destruct (decide (k' = k)) as [->|Hne].
    + rewrite !filter_cons. simpl. by case_decide.
    + rewrite !filter_cons. simpl. case_decide; [|done]. by rewrite IH.
Qed.

(** Storing a binding and moving it to the end: the old binding of the
    key goes, the new one is last. *)
Lemma od_store_last k v d :
  OD.move_to_end k (OD.set k v d) = OD.del k d ++ [(k, v)].
Proof. unfold OD.move_to_end. by rewrite od_get_set, od_del_set. Qed.

Lemma od_get_last k v d : k ∉ OD.keys d → OD.get k (d ++ [(k, v)]) = Some v.
Proof.
  unfold OD.keys. induction d as [|[k' v'] d IH]; simpl; intros Hk.
  - by rewrite decide_True.
  - apply not_elem_of_cons in Hk as [Hne Hk].
    rewrite decide_False by done. by apply IH.
Qed.

Lemma od_get_None k d : k ∉ OD.keys d → OD.get k d = None.
Proof.
  unfold OD.keys. induction d as [|[k' v'] d IH]; simpl; intros Hk; [done|].
  apply not_elem_of_cons in Hk as [Hne Hk].
  rewrite decide_False by done. by apply IH.
Qed.

Lemma od_mem_true k d : OD.mem k d = true ↔ k ∈ OD.keys d.
Proof. unfold OD.mem. apply bool_decide_eq_true. Qed.

Lemma od_mem_false k d : OD.mem k d = false ↔ k ∉ OD.keys d.
Proof. unfold OD.mem. apply bool_decide_eq_false. Qed.

Lemma od_nodup_del k d : NoDup (OD.keys d) → NoDup (OD.keys (OD.del k d)).
Proof. rewrite od_keys_del. apply NoDup_filter. Qed.
End od_facts.

(** ** Facts about [add_to_cache] and its eviction loop *)

Section cache_facts.
Context (HAS_NUMPY : bool) {gpu_batch : Type}.
Implicit Types (s : cache_state gpu_batch) (fc : list (Z * frame_data))
  (bc : gmap Z gpu_batch).

Lemma evict_lru_length fuel cap fc bc :
  (length fc ≤ fuel)%nat → (length (evict_lru fuel cap fc bc).1 ≤ cap)%nat.
Proof.
  revert fc bc. induction fuel as [|fuel IH]; intros fc bc Hlen; simpl.
  - lia.
  - case_bool_decide as Hcap; [|simpl; lia].
    destruct fc as [|[k d] fc]; simpl in *; [lia|].
    apply IH. pose proof (od_length_del_head k d fc). lia.
Qed.

(** The loop ends by its own test: any fuel from [length fc] on gives the
    same result. *)
Lemma evict_lru_enough fuel fuel' cap fc bc :
  (length fc ≤ fuel)%nat → (length fc ≤ fuel')%nat →
  evict_lru fuel cap fc bc = evict_lru fuel' cap fc bc.
Proof.
  revert fuel' fc bc. induction fuel as [|fuel IH]; intros fuel' fc bc H1 H2.
  - destruct fc; simpl in *; [|lia]. by destruct fuel'.
  - destruct fuel' as [|fuel'].
    + by destruct fc; simpl in *; [|lia].
    + simpl. case_bool_decide; [|done].
      destruct fc as [|[k d] fc]; simpl in *; [done|].
      pose proof (od_length_del_head k d fc).
      apply IH; lia.
Qed.

Lemma evict_lru_submap fuel cap fc bc : (evict_lru fuel cap fc bc).2 ⊆ bc.
Proof.
  revert fc bc. induction fuel as [|fuel IH]; intros fc bc; simpl; [done|].
  case_bool_decide; [|done]. destruct (OD.first fc); [|done].
  etrans; [apply IH|]. apply delete_subseteq.
Qed.

Lemma evict_lru_sublist fuel cap fc bc : (evict_lru fuel cap fc bc).1 `sublist_of` fc.
Proof.
  revert fc bc. induction fuel as [|fuel IH]; intros fc bc; simpl; [done|].
  case_bool_decide; [|done]. destruct (OD.first fc); [|done].
  etrans; [apply IH|]. apply sublist_filter.
Qed.

(** A frame the loop removes has no batch afterwards. *)
Lemma evict_lru_evicted fuel cap fc bc g :
  g ∈ OD.keys fc → g ∉ OD.keys (evict_lru fuel cap fc bc).1 →
  (evict_lru fuel cap fc bc).2 !! g = None.
Proof.
  revert fc bc. induction fuel as [|fuel IH]; intros fc bc Hin Hout; simpl in *;
    [done|].
  case_bool_decide; [|done].
  destruct fc as [|[k d] fc]; simpl in *; [done|].
  destruct (decide (g = k)) as [->|Hne].
  - eapply lookup_weaken_None; [|apply evict_lru_submap]. apply lookup_delete_eq.
  - apply IH; [|done]. rewrite od_keys_del. apply list_elem_of_filter.
    split; [done|]. exact Hin.
Qed.


(** With unique keys the loop drops the oldest bindings, as many as the
    cache is over capacity. *)
Lemma evict_lru_drop fuel cap fc bc :
  NoDup (OD.keys fc) → (length fc ≤ fuel)%nat →
  (evict_lru fuel cap fc bc).1 = drop (length fc - cap) fc.
Proof.
  revert fc bc. induction fuel as [|fuel IH]; intros fc bc Hnd Hlen; simpl.
  - destruct fc; simpl in *; [done|lia].
  - case_bool_decide as Hcap.
    + destruct fc as [|[k d] fc]; simpl in *; [lia|].
      apply NoDup_cons in Hnd as [Hk Hnd].
      rewrite od_del_head by done. rewrite IH by (done || lia).
      replace (S (length fc) - cap)%nat with (S (length fc - cap)) by lia.
      done.
    + simpl. replace (length fc - cap)%nat with 0%nat by lia. done.
Qed.

(** The binding stored last survives whenever the capacity is positive. *)
Lemma evict_lru_keeps_last fuel cap pre k d bc :
  (0 < cap)%nat → k ∉ OD.keys pre →
  ∃ pre', (evict_lru fuel cap (pre ++ [(k, d)]) bc).1 = pre' ++ [(k, d)]
          ∧ k ∉ OD.keys pre'.
Proof.
  intros Hcap. revert pre bc. induction fuel as [|fuel IH]; intros pre bc Hk; simpl.
  - by exists pre.
  - case_bool_decide as Hlen; [|by exists pre].
    destruct pre as [|[k' d'] pre]; simpl in *; [lia|].
    apply not_elem_of_cons in Hk as [Hne Hk].
    unfold OD.del. rewrite filter_cons. simpl. rewrite decide_False by naive_solver.
    rewrite filter_app. rewrite (filter_cons _ (k, d)). simpl.
    rewrite decide_True by done. rewrite filter_nil.
    apply IH. fold (OD.del k' pre). rewrite od_keys_del.
    intros [_ ?]%list_elem_of_filter. done.
Qed.

Lemma empty_data_nonempty (v : py_seq vertex) (i : py_seq index) :
  py_len v ≠ 0%nat → py_len i ≠ 0%nat → empty_data HAS_NUMPY v i = false.
Proof.
  intros Hv Hi. unfold empty_data.
  rewrite !bool_decide_eq_false_2 by done. by destruct HAS_NUMPY, (is_ndarray v).
Qed.

Lemma add_to_cache_stored s frame v i prim :
  empty_data HAS_NUMPY v i = false →
  let fc := stored_last s frame (v, i, prim) in
  let r := evict_lru (length fc) (_max_cache_size s) fc
                     (delete frame (_batch_cache s)) in
  add_to_cache HAS_NUMPY s frame (Some v) (Some i) prim =
  {| _frame_cache := r.1; _batch_cache := r.2;
     _max_cache_size := _max_cache_size s; _last_frame := _last_frame s;
     _cache_hits := _cache_hits s; _cache_misses := _cache_misses s + 1;
     _dirty_frames := _dirty_frames s ∖ {[frame]} |}.
Proof.
  intros He. unfold add_to_cache, stored_last. rewrite He, od_store_last. simpl.
  by destruct (evict_lru _ _ _ _).
Qed.

Lemma add_to_cache_cases s frame verts indices prim :
  add_to_cache HAS_NUMPY s frame verts indices prim = s ∨
  ∃ v i, verts = Some v ∧ indices = Some i ∧ empty_data HAS_NUMPY v i = false.
Proof.
  destruct verts as [v|], indices as [i|]; simpl; try by left.
  destruct (empty_data HAS_NUMPY v i) eqn:He; [by left|]. right. by exists v, i.
Qed.

Lemma add_to_cache_max_cache_size s frame verts indices prim :
  _max_cache_size (add_to_cache HAS_NUMPY s frame verts indices prim)
  = _max_cache_size s.
Proof.
  destruct (add_to_cache_cases s frame verts indices prim)
    as [->|(v & i & -> & -> & He)]; [done|].
  by rewrite add_to_cache_stored.
Qed.

Lemma add_to_cache_length s frame verts indices prim :
  (length (_frame_cache s) ≤ _max_cache_size s)%nat →
  (length (_frame_cache (add_to_cache HAS_NUMPY s frame verts indices prim))
     ≤ _max_cache_size s)%nat.
Proof.
  intros Hs. destruct (add_to_cache_cases s frame verts indices prim)
    as [->|(v & i & -> & -> & He)]; [done|].
  rewrite add_to_cache_stored by done. simpl. by apply evict_lru_length.
Qed.

Lemma add_to_cache_evicted s frame verts indices prim g :
  g ∈ OD.keys (_frame_cache s) →
  g ∉ OD.keys (_frame_cache (add_to_cache HAS_NUMPY s frame verts indices prim)) →
  _batch_cache (add_to_cache HAS_NUMPY s frame verts indices prim) !! g = None.
Proof.
  intros Hin. destruct (add_to_cache_cases s frame verts indices prim)
    as [->|(v & i & -> & -> & He)]; [done|].
  rewrite add_to_cache_stored by done. simpl. intros Hout.
  apply evict_lru_evicted; [|done]. unfold stored_last, OD.keys.
  rewrite fmap_app. fold (OD.keys (OD.del frame (_frame_cache s))).
  rewrite od_keys_del. destruct (decide (g = frame)) as [->|Hne].
  - apply elem_of_app. right. simpl. apply list_elem_of_singleton. done.
  - apply elem_of_app. left. by apply list_elem_of_filter.
Qed.
End cache_facts.

Section lru_facts.
Context (HAS_NUMPY : bool) {gpu_batch : Type}.
Context (batch_for_shader :
           prim_type → list vertex → list index → option gpu_batch).
Implicit Types (s : cache_state gpu_batch).

(** [get_batch] touches the batch cache and the hit counter only. *)
Lemma get_batch_frame_cache s frame :
  let s' := (get_batch HAS_NUMPY batch_for_shader s frame).2 in
  _frame_cache s' = _frame_cache s ∧ _max_cache_size s' = _max_cache_size s
  ∧ _dirty_frames s' = _dirty_frames s.
Proof.
  unfold get_batch. case_bool_decide; [done|].
  destruct (_batch_cache s !! frame); [done|].
  destruct (OD.get frame (_frame_cache s)) as [[[v i] p]|]; [|done].
  destruct (to_lists HAS_NUMPY v i) as [[vl il]|]; [|done].
  by destruct (batch_for_shader p vl il).
Qed.



End lru_facts.

(** ** Facts about dirtying and distance eviction *)

Section dirty_facts.
Context (HAS_NUMPY : bool) {gpu_batch : Type}.
Context (batch_for_shader :
           prim_type → list vertex → list index → option gpu_batch).
Implicit Types (s : cache_state gpu_batch).

Lemma remove_frames_spec s to_remove :
  let s' := foldl remove_frame s to_remove in
  _frame_cache s' = filter (λ p, p.1 ∉ to_remove) (_frame_cache s)
  ∧ (∀ f, _batch_cache s' !! f
          = if decide (f ∈ to_remove) then None else _batch_cache s !! f)
  ∧ _dirty_frames s' = _dirty_frames s
  ∧ _max_cache_size s' = _max_cache_size s
  ∧ _cache_hits s' = _cache_hits s ∧ _cache_misses s' = _cache_misses s
  ∧ _last_frame s' = _last_frame s.
Proof.
  revert s. induction to_remove as [|k l IH]; intros s; simpl.
  - split_and!; try done.
    induction (_frame_cache s) as [|p fc IHfc]; [done|].
    rewrite filter_cons. rewrite decide_True by apply not_elem_of_nil.
    by rewrite <-IHfc.
  - destruct (IH (remove_frame s k)) as (Hfc & Hbc & Hd & Hm & Hh & Hmi & Hl).
    simpl in *.
    split_and!; try done.
    + rewrite Hfc. unfold OD.del. rewrite list_filter_filter.
      apply list_filter_iff. intros p. rewrite not_elem_of_cons. tauto.
    + intros f. rewrite Hbc. destruct (decide (f ∈ k :: l)) as [Hin|Hnin].
      * destruct (decide (f ∈ l)); [done|].
        apply elem_of_cons in Hin as [->|?]; [apply lookup_delete_eq|done].
      * apply not_elem_of_cons in Hnin as [Hne Hnin].
        rewrite decide_False by done. by apply lookup_delete_ne.
Qed.

Lemma evict_distant_frames_spec s current_frame keep_radius :
  let s' := evict_distant_frames s current_frame keep_radius in
  _frame_cache s'
  = filter (λ p, Z.abs (p.1 - current_frame) ≤ keep_radius) (_frame_cache s)
  ∧ (∀ f, _batch_cache s' !! f
          = if decide (f ∈ OD.keys (_frame_cache s)
                       ∧ keep_radius < Z.abs (f - current_frame))
            then None else _batch_cache s !! f)
  ∧ _dirty_frames s' = _dirty_frames s
  ∧ _max_cache_size s' = _max_cache_size s
  ∧ _cache_hits s' = _cache_hits s ∧ _cache_misses s' = _cache_misses s.
Proof.
  pose proof (remove_frames_spec s
    (filter (λ frame, keep_radius < Z.abs (frame - current_frame))
            (OD.keys (_frame_cache s)))) as (Hfc & Hbc & Hd & Hm & Hh & Hmi & _).
  unfold evict_distant_frames.
  split_and!; try done.
  - rewrite Hfc. apply filter_iff_elem_of. intros p Hp.
    rewrite list_elem_of_filter. split.
    + intros Hnot. destruct (decide (Z.abs (p.1 - current_frame) ≤ keep_radius));
        [done|]. exfalso. apply Hnot. split; [lia|].
      unfold OD.keys. apply list_elem_of_fmap. by exists p.
    + intros Hle [Hfar _]. lia.
  - intros f. rewrite Hbc. apply decide_ext. rewrite list_elem_of_filter. tauto.
Qed.

Lemma dirty_unbatched_disjoint s :
  dirty_unbatched s ↔ _dirty_frames s ∩ dom (_batch_cache s) = ∅.
Proof.
  unfold dirty_unbatched. split.
  - intros H. apply set_eq. intros f. rewrite elem_of_intersection, elem_of_dom.
    split; [|set_solver]. intros [Hd [b Hb]]. rewrite (H f Hd) in Hb. done.
  - intros H f Hd. apply not_elem_of_dom. intros Hb.
    assert (f ∈ _dirty_frames s ∩ dom (_batch_cache s)) as Hf by set_solver.
    rewrite H in Hf. set_solver.
Qed.

Lemma mark_frame_dirty_unbatched s frame :
  dirty_unbatched s → dirty_unbatched (mark_frame_dirty s frame).
Proof.
  intros H f. simpl. intros [->%elem_of_singleton|Hf]%elem_of_union.
  - apply lookup_delete_eq.
  - destruct (decide (f = frame)) as [->|Hne]; [apply lookup_delete_eq|].
    rewrite lookup_delete_ne by done. by apply H.
Qed.

Lemma add_to_cache_unbatched s frame verts indices prim :
  dirty_unbatched s →
  dirty_unbatched (add_to_cache HAS_NUMPY s frame verts indices prim).
Proof.
  intros H. destruct (add_to_cache_cases HAS_NUMPY s frame verts indices prim)
    as [->|(v & i & -> & -> & He)]; [done|].
  rewrite add_to_cache_stored by done. intros f. simpl.
  intros [Hf Hne]%elem_of_difference.
  eapply lookup_weaken_None; [|apply evict_lru_submap].
  rewrite lookup_delete_ne by set_solver. by apply H.
Qed.

Lemma get_batch_unbatched s frame :
  dirty_unbatched s →
  dirty_unbatched (get_batch HAS_NUMPY batch_for_shader s frame).2.
Proof.
  intros H. unfold get_batch. case_bool_decide as Hd; [done|].
  destruct (_batch_cache s !! frame); [done|].
  destruct (OD.get frame (_frame_cache s)) as [[[v i] p]|]; [|done].
  destruct (to_lists HAS_NUMPY v i) as [[vl il]|]; [|done].
  destruct (batch_for_shader p vl il); [|done].
  intros f. simpl. intros Hf. rewrite lookup_insert_ne by (intros ->; done).
  by apply H.
Qed.

Lemma invalidate_frames_near_unbatched s center radius :
  dirty_unbatched s → dirty_unbatched (invalidate_frames_near s center radius).
Proof.
  unfold invalidate_frames_near. generalize (OD.keys (_frame_cache s)).
  intros l. revert s. induction l as [|k l IH]; intros s H; simpl; [done|].
  apply IH. case_bool_decide; [|done]. by apply mark_frame_dirty_unbatched.
Qed.

Lemma evict_distant_frames_unbatched s center keep_radius :
  dirty_unbatched s → dirty_unbatched (evict_distant_frames s center keep_radius).
Proof.
  intros H f. destruct (evict_distant_frames_spec s center keep_radius)
    as (_ & Hbc & Hd & _). rewrite Hd, Hbc. intros Hf.
  case_decide; [done|]. by apply H.
Qed.

Lemma run_op_unbatched s op :
  dirty_unbatched s → dirty_unbatched (run_op HAS_NUMPY batch_for_shader s op).
Proof.
  intros H. destruct op; simpl.
  - by apply add_to_cache_unbatched.
  - by apply get_batch_unbatched.
  - by apply mark_frame_dirty_unbatched.
  - intros f _. apply lookup_empty.
  - by apply invalidate_frames_near_unbatched.
  - by apply evict_distant_frames_unbatched.
  - intros f _. apply lookup_empty.
Qed.
End dirty_facts.

(** ** Facts about [range] and the stable sort *)

(** With a positive step, [range(step, look_ahead + 1, step)] lists the
    positive multiples of [step] up to [look_ahead]. *)
Lemma py_range_multiples (step look_ahead : Z) :
  0 < step →
  ∃ offsets, py_range step (look_ahead + 1) step = Returns offsets
    ∧ ∀ i, i ∈ offsets ↔ ∃ k, 1 ≤ k ∧ i = k * step ∧ i ≤ look_ahead.
Proof.
  intros Hstep. unfold py_range.
  rewrite decide_False by lia. rewrite decide_True by done.
  eexists. split; [done|]. intros i.
  replace (look_ahead + 1 - step + step - 1) with look_ahead by lia.
  rewrite list_elem_of_fmap. split.
  - intros (j & -> & Hj). apply elem_of_seqZ in Hj.
    exists (j + 1). split; [lia|]. split; [lia|].
    assert (j + 1 ≤ look_ahead `div` step) as Hle by lia.
    pose proof (Z.mul_div_le look_ahead step Hstep).
    nia.
  - intros (k & Hk & -> & Hle). exists (k - 1). split; [lia|].
    apply elem_of_seqZ. split; [lia|].
    assert (k ≤ look_ahead `div` step); [|lia].
    apply Z.div_le_lower_bound; lia.
Qed.

Section sort_facts.
Context (key : Z → Z).

Lemma insert_by_key_perm x l : insert_by_key key x l ≡ₚ x :: l.
Proof.
  induction l as [|y l IH]; simpl; [done|].
  case_bool_decide; [done|]. rewrite IH. apply Permutation_swap.
Qed.

Lemma sort_by_key_perm l : sort_by_key key l ≡ₚ l.
Proof.
  induction l as [|x l IH]; simpl; [done|].
  rewrite insert_by_key_perm. by rewrite IH.
Qed.



End sort_facts.

(** ** Recency order and capacity *)


(** C4: starting with at most [_max_cache_size] entries (500 by default),
    the cache holds at most [_max_cache_size] entries after every
    [add_to_cache] call of any sequence; the eviction is part of the call
    itself, and a frame that was cached before a call and is not after it
    has lost its geometry and its batch. *)
Theorem add_keeps_capacity (HAS_NUMPY : bool) {gpu_batch : Type}
    (s : cache_state gpu_batch) (calls : list add_call) (c : add_call) (g : Z) :
  (length (_frame_cache s) ≤ _max_cache_size s)%nat →
  let s' := run_adds HAS_NUMPY s calls in
  let s'' := do_add HAS_NUMPY s' c in
  _max_cache_size (initial_state (gpu_batch := gpu_batch)) = 500%nat
  ∧ _max_cache_size s' = _max_cache_size s
  ∧ (length (_frame_cache s') ≤ _max_cache_size s)%nat
  ∧ (length (_frame_cache s'') ≤ _max_cache_size s)%nat
  ∧ (g ∈ OD.keys (_frame_cache s') → g ∉ OD.keys (_frame_cache s'') →
     OD.get g (_frame_cache s'') = None ∧ _batch_cache s'' !! g = None).
Proof.
  intros Hs s' s''. split; [done|].
  assert (_max_cache_size s' = _max_cache_size s
          ∧ (length (_frame_cache s') ≤ _max_cache_size s)%nat) as [Hm Hl].
  { subst s' s''. clear c. induction calls as [|c calls IH] using rev_ind; [done|].
    unfold run_adds in *. rewrite foldl_app. simpl. destruct IH as [IHm IHl].
    unfold do_add at 1 3. rewrite add_to_cache_max_cache_size. split; [done|].
    rewrite <-IHm. apply add_to_cache_length. by rewrite IHm. }
  split; [done|]. split; [done|]. split.
  - subst s''. unfold do_add. rewrite <-Hm. apply add_to_cache_length.
    by rewrite Hm.
  - intros Hin Hout. split; [by apply od_get_None|].
    subst s''. unfold do_add in *. by apply add_to_cache_evicted.
Qed.

(** ** Empty geometry *)

(** Without vertices every call is rejected, whatever [HAS_NUMPY] is. *)
Lemma add_to_cache_no_vertices (HAS_NUMPY : bool) {gpu_batch : Type}
    (s : cache_state gpu_batch) frame (v : py_seq vertex) indices prim :
  py_len v = 0%nat → add_to_cache HAS_NUMPY s frame (Some v) indices prim = s.
Proof.
  intros Hv. unfold add_to_cache. destruct indices as [i|]; [|done].
  unfold empty_data. rewrite !bool_decide_eq_true_2 by done.
  by destruct HAS_NUMPY, (is_ndarray v).
Qed.

(** Without numpy, a call without index tuples is rejected as well. *)
Lemma add_to_cache_no_indices_plain {gpu_batch : Type}
    (s : cache_state gpu_batch) frame verts (i : py_seq index) prim :
  py_len i = 0%nat → add_to_cache false s frame verts (Some i) prim = s.
Proof.
  intros Hi. unfold add_to_cache. destruct verts as [v|]; [|done].
  unfold empty_data. rewrite (bool_decide_eq_true_2 (py_len i = 0%nat)) by done.
  by rewrite orb_true_r.
Qed.

(** C2: with numpy present, [add_to_cache] called with one vertex and no
    index tuple is not a no-op: the frame is stored and the miss counter
    goes up; the branch without numpy rejects the same call. *)
Theorem add_without_indices_is_stored_under_numpy :
  let verts := Some (PyList [(0, 0, 0)]) in
  let indices := Some (PyList ([] : list index)) in
  let s0 : cache_state checked_batch := initial_state in
  add_to_cache false s0 5 verts indices TRIS = s0
  ∧ _frame_cache (add_to_cache true s0 5 verts indices TRIS)
    = [(5, (PyList [(0, 0, 0)], PyList [], TRIS))]
  ∧ _cache_misses (add_to_cache true s0 5 verts indices TRIS) = 1
  ∧ is_frame_cached (add_to_cache true s0 5 verts indices TRIS) 5 = true
  ∧ add_to_cache true s0 5 (Some (NdArray [(0, 0, 0)])) (Some (NdArray [])) TRIS
    ≠ s0.
Proof. split_and!; [reflexivity..|]. intros H. by apply (f_equal _cache_misses) in H. Qed.

(** ** Eviction by distance *)

(** C3 (amended): [evict_distant_frames] removes exactly the entries
    whose distance from the centre exceeds the radius, with their batches,
    and leaves the dirty set and the counters alone; with entries at 40,
    70, 100 and 160, centre 100 and radius 50, frames 40 and 160 (both at
    distance 60) are removed and 70 and 100 remain. *)
Theorem evict_distant_frames_removes_far_entries (HAS_NUMPY : bool)
    {gpu_batch : Type} (s : cache_state gpu_batch) (current_frame keep_radius : Z) :
  let s' := evict_distant_frames s current_frame keep_radius in
  _frame_cache s'
  = filter (λ p, Z.abs (p.1 - current_frame) ≤ keep_radius) (_frame_cache s)
  ∧ (∀ f, _batch_cache s' !! f
          = if decide (f ∈ OD.keys (_frame_cache s)
                       ∧ keep_radius < Z.abs (f - current_frame))
            then None else _batch_cache s !! f)
  ∧ _dirty_frames s' = _dirty_frames s
  ∧ _cache_hits s' = _cache_hits s ∧ _cache_misses s' = _cache_misses s
  ∧ OD.keys (_frame_cache
       (evict_distant_frames
          (run_adds HAS_NUMPY (initial_state (gpu_batch := gpu_batch))
                    (add_triangle <$> [40; 70; 100; 160])) 100 50))
    = [70; 100].
Proof.
  destruct (evict_distant_frames_spec s current_frame keep_radius)
    as (Hfc & Hbc & Hd & _ & Hh & Hm).
  split_and!; try done. by destruct HAS_NUMPY.
Qed.

(** ** Dirty frames *)

(** C5: after [mark_frame_dirty] on a cached frame, [is_frame_cached] is
    false and [get_batch] returns [None] without touching anything, while
    the frame is still among the entries; in any state, a frame in the
    dirty set is not cached and gets no batch. *)
Theorem dirty_takes_precedence (HAS_NUMPY : bool) {gpu_batch : Type}
    (batch_for_shader : prim_type → list vertex → list index → option gpu_batch)
    (s : cache_state gpu_batch) (frame : Z)
    (st : cache_state gpu_batch) (f : Z) :
  OD.mem frame (_frame_cache s) = true →
  f ∈ _dirty_frames st →
  let s' := mark_frame_dirty s frame in
  is_frame_cached s' frame = false
  ∧ get_batch HAS_NUMPY batch_for_shader s' frame = (Returns None, s')
  ∧ _frame_cache s' = _frame_cache s
  ∧ OD.mem frame (_frame_cache s') = true
  ∧ is_frame_cached st f = false
  ∧ get_batch HAS_NUMPY batch_for_shader st f = (Returns None, st).
Proof.
  intros Hin Hf s'.
  assert (frame ∈ _dirty_frames s') as Hd.
  { simpl. apply elem_of_union. left. by apply elem_of_singleton. }
  unfold is_frame_cached, get_batch.
  rewrite !(bool_decide_eq_true_2 _ Hd), !(bool_decide_eq_true_2 _ Hf).
  by split_and!.
Qed.

(** C6: [add_to_cache] with non-empty geometry on a dirty frame (the
    capacity being positive, as the default 500 is) clears the dirty flag
    and drops the old batch in the one state change; right after it the
    frame is cached, its entry is the new geometry, and [get_batch] builds
    from the new vertices and indices. *)
Theorem add_clears_dirty (HAS_NUMPY : bool) {gpu_batch : Type}
    (batch_for_shader : prim_type → list vertex → list index → option gpu_batch)
    (s : cache_state gpu_batch) (frame : Z)
    (new_verts : py_seq vertex) (new_indices : py_seq index) (prim : prim_type) :
  frame ∈ _dirty_frames s →
  py_len new_verts ≠ 0%nat → py_len new_indices ≠ 0%nat →
  (0 < _max_cache_size s)%nat →
  let s' := add_to_cache HAS_NUMPY s frame (Some new_verts) (Some new_indices) prim in
  (frame ∉ _dirty_frames s')
  ∧ _batch_cache s' !! frame = None
  ∧ is_frame_cached s' frame = true
  ∧ OD.get frame (_frame_cache s') = Some (new_verts, new_indices, prim)
  ∧ get_batch HAS_NUMPY batch_for_shader s' frame
    = match to_lists HAS_NUMPY new_verts new_indices with
      | Raises => (Raises, s')
      | Returns (verts_list, indices_list) =>
          match batch_for_shader prim verts_list indices_list with
          | Some batch =>
              (Returns (Some batch),
               with_batch s' (<[frame := batch]> (_batch_cache s'))
                          (_cache_hits s' + 1))
          | None => (Returns None, s')
          end
      end.
Proof.
  intros Hdirty Hv Hi Hcap s'.
  pose proof (empty_data_nonempty HAS_NUMPY _ _ Hv Hi) as He.
  pose proof (add_to_cache_stored HAS_NUMPY s frame new_verts new_indices prim He)
    as Hs'. cbv zeta in Hs'. fold s' in Hs'.
  destruct (evict_lru_keeps_last
              (length (stored_last s frame (new_verts, new_indices, prim)))
              (_max_cache_size s) (OD.del frame (_frame_cache s)) frame
              (new_verts, new_indices, prim) (delete frame (_batch_cache s)) Hcap
              (od_not_in_del _ _)) as (pre & Hpre & Hfresh).
  fold (stored_last s frame (new_verts, new_indices, prim)) in Hpre.
  assert (frame ∉ _dirty_frames s') as Hnd.
  { rewrite Hs'. simpl. intros [_ Hn]%elem_of_difference.
    apply Hn. by apply elem_of_singleton. }
  assert (_batch_cache s' !! frame = None) as Hnb.
  { rewrite Hs'. simpl. eapply lookup_weaken_None; [|apply evict_lru_submap].
    apply lookup_delete_eq. }
  assert (_frame_cache s' = pre ++ [(frame, (new_verts, new_indices, prim))]) as Hfc.
  { rewrite Hs'. simpl. exact Hpre. }
  assert (OD.get frame (_frame_cache s') = Some (new_verts, new_indices, prim)) as Hget.
  { rewrite Hfc. by apply od_get_last. }
  split_and!; try done.
  - unfold is_frame_cached. rewrite bool_decide_eq_false_2 by done.
    apply od_mem_true. rewrite Hfc. unfold OD.keys. rewrite fmap_app.
    apply elem_of_app. right. simpl. left.
  - unfold get_batch. rewrite bool_decide_eq_false_2 by done.
    by rewrite Hnb, Hget.
Qed.

(** C9: in every state reached from the empty cache by any sequence of
    operations (add, get_batch, mark dirty, mark all dirty, invalidate
    near, evict distant, clear), no frame is both in the dirty set and in
    the batch cache. *)
Theorem dirty_frames_have_no_batch (HAS_NUMPY : bool) {gpu_batch : Type}
    (batch_for_shader : prim_type → list vertex → list index → option gpu_batch)
    (ops : list cache_op) :
  let s := run_ops HAS_NUMPY batch_for_shader initial_state ops in
  _dirty_frames s ∩ dom (_batch_cache s) = ∅.
Proof.
  intros s. apply dirty_unbatched_disjoint. subst s.
  induction ops as [|op ops IH] using rev_ind.
  - intros f Hf. simpl in Hf. by apply not_elem_of_empty in Hf.
  - unfold run_ops in *. rewrite foldl_app. simpl. by apply run_op_unbatched.
Qed.

(** C10: eviction leaves the dirty set alone.  [add_to_cache] takes at
    most its own frame out of the dirty set, [evict_distant_frames] takes
    nothing out, and [mark_frame_dirty] adds its frame whether or not it is
    an entry.  So a frame can be dirty without being an entry (marked while
    absent; evicted by overflow; evicted by distance) and the dirty count
    can exceed the size. *)
Theorem eviction_keeps_dirty_flags (HAS_NUMPY : bool) {gpu_batch : Type}
    (s : cache_state gpu_batch) (frame : Z) (verts : option (py_seq vertex))
    (indices : option (py_seq index)) (prim : prim_type)
    (current_frame keep_radius : Z) :
  _dirty_frames s ∖ {[frame]}
    ⊆ _dirty_frames (add_to_cache HAS_NUMPY s frame verts indices prim)
  ∧ _dirty_frames (evict_distant_frames s current_frame keep_radius)
    = _dirty_frames s
  ∧ _dirty_frames (mark_frame_dirty s frame) = {[frame]} ∪ _dirty_frames s
  ∧ (let st := mark_frame_dirty (initial_state (gpu_batch := gpu_batch)) 7 in
     bool_decide (7 ∈ _dirty_frames st) = true
     ∧ OD.mem 7 (_frame_cache st) = false
     ∧ stat_dirty (get_cache_stats st) = 1%nat
     ∧ stat_size (get_cache_stats st) = 0%nat)
  ∧ (let st := do_add true (mark_frame_dirty (filled 500) 1) (add_triangle 501) in
     bool_decide (1 ∈ _dirty_frames st) = true
     ∧ OD.mem 1 (_frame_cache st) = false
     ∧ OD.mem 1 (_frame_cache (filled 500)) = true)
  ∧ (let st := evict_distant_frames (mark_frame_dirty (filled 3) 1) 100 50 in
     bool_decide (1 ∈ _dirty_frames st) = true
     ∧ stat_dirty (get_cache_stats st) = 1%nat
     ∧ stat_size (get_cache_stats st) = 0%nat).
Proof.
  split_and!.
  - destruct (add_to_cache_cases HAS_NUMPY s frame verts indices prim)
      as [->|(v & i & -> & -> & He)];
      [by intros x [Hx _]%elem_of_difference|].
    by rewrite add_to_cache_stored.
  - by destruct (evict_distant_frames_spec s current_frame keep_radius)
      as (_ & _ & Hd & _).
  - done.
  - by vm_compute.
  - by vm_compute.
  - by vm_compute.
Qed.

(** ** The pre-cache scheduler *)


(** C8: one background caching step leaves [scene.frame_current] where
    it was, whatever [cache_frame] does to the scene and whether it returns
    or raises, and on the early exits as well. *)
Theorem background_step_restores_frame {gpu_batch : Type}
    (cache_frame : world gpu_batch → Z → py_result bool * world gpu_batch)
    (w : world gpu_batch) :
  frame_current (the_scene (_background_cache_step cache_frame w).2)
  = frame_current (the_scene w).
Proof.
  unfold _background_cache_step.
  destruct (context_ok w); simpl; [|done].
  destruct (onion_skin_settings (the_scene w)) as [st|]; [|done].
  destruct (negb (enabled st) || _); [done|].
  assert (∀ pending,
    frame_current (the_scene
      (match pending with
       | [] => (Returns Stop, set_is_caching (set_pending w []) false)
       | frame :: rest =>
           let w1 := set_pending w rest in
           let original_frame := frame_current (the_scene w1) in
           let w2 := (cache_frame w1 frame).2 in
           let w3 :=
             if bool_decide (frame_current (the_scene w2) ≠ original_frame)
             then frame_set w2 original_frame else w2 in
           match _pending_frames w3 with
           | [] => (Returns Stop, set_is_caching w3 false)
           | _ => (Returns Again, w3)
           end
       end).2) = frame_current (the_scene w)) as Hstep.
  { intros [|frame rest]; [done|]. simpl.
    set (w2 := (cache_frame (set_pending w rest) frame).2).
    case_bool_decide as Hmoved.
    - by destruct (_pending_frames (frame_set w2 _)).
    - by destruct (_pending_frames w2). }
  destruct (_pending_frames w) as [|frame rest]; [|apply (Hstep (frame :: rest))].
  destruct (get_precache_frames (the_scene w) (the_cache w) 0) as [frames|];
    [apply Hstep|done].
Qed.

(** ** The worked scenarios *)

(** Closes a decidable goal by evaluation. *)
Ltac by_evaluation := apply (bool_decide_unpack _); vm_compute; exact I.



(** C3, as stated, fails: with entries at 40, 70, 100 and 160, centre
    100 and radius 50, frame 160 does not remain. *)
Lemma evict_distant_frames_removes_160 :
  let s := evict_distant_frames (run_adds true (initial_state (gpu_batch := checked_batch))
                                          (add_triangle <$> [40; 70; 100; 160]))
                                100 50 in
  ¬ (OD.keys (_frame_cache s) = [70; 100; 160])
  ∧ OD.mem 160 (_frame_cache s) = false
  ∧ OD.mem 40 (_frame_cache s) = false.
Proof. split_and!; [|by vm_compute..]. vm_compute. discriminate. Qed.

(** The C4 theorem on the default cache: 500 adds, then the add of frame
    501, which evicts frame 1. *)
Lemma add_keeps_capacity_default :
  let s' := run_adds true (initial_state (gpu_batch := checked_batch))
                     (add_triangle <$> seqZ 1 500) in
  let s'' := do_add true s' (add_triangle 501) in
  (length (_frame_cache s') ≤ 500)%nat
  ∧ (length (_frame_cache s'') ≤ 500)%nat
  ∧ OD.get 1 (_frame_cache s'') = None ∧ _batch_cache s'' !! 1 = None.
Proof.
  intros s' s''.
  destruct (add_keeps_capacity true (initial_state (gpu_batch := checked_batch))
              (add_triangle <$> seqZ 1 500) (add_triangle 501) 1)
    as (_ & _ & Hs' & Hs'' & Hevicted).
  - simpl; lia.
  - split; [exact Hs'|]. split; [exact Hs''|].
    apply Hevicted; by_evaluation.
Defined.

(** The C5 theorem on a cache holding frames 1 to 3, frame 2 being
    marked, and on an empty cache where the absent frame 9 was marked. *)
Lemma dirty_takes_precedence_example :
  let s' := mark_frame_dirty (filled 3) 2 in
  let st := mark_frame_dirty (initial_state (gpu_batch := checked_batch)) 9 in
  is_frame_cached s' 2 = false
  ∧ get_batch true checked_batch_for_shader s' 2 = (Returns None, s')
  ∧ _frame_cache s' = _frame_cache (filled 3)
  ∧ OD.mem 2 (_frame_cache s') = true
  ∧ is_frame_cached st 9 = false
  ∧ get_batch true checked_batch_for_shader st 9 = (Returns None, st).
Proof.
  apply (dirty_takes_precedence true checked_batch_for_shader (filled 3) 2
           (mark_frame_dirty initial_state 9) 9).
  - vm_compute; reflexivity.
  - by_evaluation.
Defined.

(** The C6 theorem on the scenario: frame 5 cached and drawn, everything
    marked dirty, frame 5 added again with new geometry. *)
Lemma add_clears_dirty_scenario :
  let drawn := (get_batch true checked_batch_for_shader
                  (do_add true initial_state (add_triangle 5)) 5).2 in
  let s' := add_to_cache true (mark_all_dirty drawn) 5
                         (Some new_verts) (Some new_indices) TRIS in
  (5 ∉ _dirty_frames s')
  ∧ _batch_cache s' !! 5 = None
  ∧ is_frame_cached s' 5 = true
  ∧ OD.get 5 (_frame_cache s') = Some (new_verts, new_indices, TRIS)
  ∧ get_batch true checked_batch_for_shader s' 5
    = (Returns (Some (TRIS, tolist new_verts, tolist new_indices)),
       with_batch s' (<[5 := (TRIS, tolist new_verts, tolist new_indices)]>
                        (_batch_cache s'))
                  (_cache_hits s' + 1)).
Proof.
  apply (add_clears_dirty true checked_batch_for_shader
           (mark_all_dirty (get_batch true checked_batch_for_shader
                              (do_add true initial_state (add_triangle 5)) 5).2)
           5 new_verts new_indices TRIS).
  - by_evaluation.
  - by_evaluation.
  - by_evaluation.
  - vm_compute; lia.
Defined.



(** ** More facts about the ordered dictionary *)

Section od_more.
Context {V : Type}.
Implicit Types (d : list (Z * V)) (k : Z) (v : V).

Lemma od_keys_filter (P : Z → Prop) `{!∀ x, Decision (P x)} d :
  OD.keys (filter (λ p, P p.1) d) = filter P (OD.keys d).
Proof.
  unfold OD.keys. induction d as [|[k' v'] d IH]; [done|].
  rewrite filter_cons. csimpl. rewrite filter_cons. simpl.
  destruct (decide (P k')); csimpl; by rewrite IH.
Qed.

Lemma od_get_Some_in k v d : OD.get k d = Some v → k ∈ OD.keys d.
Proof.
  unfold OD.keys. induction d as [|[k' v'] d IH]; simpl; [done|].
  case_decide as Hk; [subst; intros _; left|]. intros Hg. right. by apply IH.
Qed.

Lemma od_get_in k d : k ∈ OD.keys d → is_Some (OD.get k d).
Proof.
  unfold OD.keys. induction d as [|[k' v'] d IH]; simpl.
  - intros Hk. by apply elem_of_nil in Hk.
  - intros Hk. case_decide as Hne; [by eexists|].
    apply elem_of_cons in Hk as [->|Hk]; [done|]. by apply IH.
Qed.



End od_more.

(** ** Well-formedness is kept by every operation *)

Section wf_facts.
Context (HAS_NUMPY : bool) {gpu_batch : Type}.
Context (batch_for_shader :
           prim_type → list vertex → list index → option gpu_batch).
Implicit Types (s : cache_state gpu_batch).

Lemma stored_last_keys s frame data :
  OD.keys (stored_last s frame data)
  = filter (λ x, x ≠ frame) (OD.keys (_frame_cache s)) ++ [frame].
Proof.
  unfold stored_last, OD.keys. rewrite fmap_app.
  fold (OD.keys (OD.del frame (_frame_cache s))). by rewrite od_keys_del.
Qed.

Lemma stored_last_nodup s frame data :
  NoDup (OD.keys (_frame_cache s)) → NoDup (OD.keys (stored_last s frame data)).
Proof.
  intros Hnd. rewrite stored_last_keys. apply NoDup_app. split_and!.
  - by apply NoDup_filter.
  - intros x [Hx _]%list_elem_of_filter ->%list_elem_of_singleton. done.
  - apply NoDup_singleton.
Qed.

Lemma initial_state_wf : cache_wf (initial_state (gpu_batch := gpu_batch)).
Proof.
  split; [constructor|]. intros f [b Hb]. simpl in Hb.
  by rewrite lookup_empty in Hb.
Qed.

Lemma add_to_cache_wf s frame verts indices prim :
  cache_wf s → cache_wf (add_to_cache HAS_NUMPY s frame verts indices prim).
Proof.
  intros [Hnd Hbc]. destruct (add_to_cache_cases HAS_NUMPY s frame verts indices prim)
    as [->|(v & i & -> & -> & He)]; [done|].
  rewrite add_to_cache_stored by done. split; simpl.
  - eapply sublist_NoDup; [by apply (stored_last_nodup s frame (v, i, prim))|].
    unfold OD.keys. apply fmap_sublist, evict_lru_sublist.
  - intros f Hf.
    destruct (decide (f ∈ OD.keys (evict_lru
        (length (stored_last s frame (v, i, prim))) (_max_cache_size s)
        (stored_last s frame (v, i, prim)) (delete frame (_batch_cache s))).1))
      as [|Hout]; [done|].
    exfalso. destruct Hf as [b Hb].
    assert (delete frame (_batch_cache s) !! f = Some b) as Hdel.
    { eapply lookup_weaken; [exact Hb|apply evict_lru_submap]. }
    apply lookup_delete_Some in Hdel as [Hne Hsome].
    rewrite evict_lru_evicted in Hb; [done| |done].
    rewrite stored_last_keys. apply elem_of_app. left.
    apply list_elem_of_filter. split; [done|]. apply Hbc. by eexists.
Qed.

Lemma get_batch_wf s frame :
  cache_wf s → cache_wf (get_batch HAS_NUMPY batch_for_shader s frame).2.
Proof.
  intros [Hnd Hbc]. unfold get_batch. case_bool_decide; [done|].
  destruct (_batch_cache s !! frame); [done|].
  destruct (OD.get frame (_frame_cache s)) as [[[v i] p]|] eqn:Hget; [|done].
  destruct (to_lists HAS_NUMPY v i) as [[vl il]|]; [|done].
  destruct (batch_for_shader p vl il); [|done].
  split; [done|]. simpl. intros f Hf.
  destruct (decide (f = frame)) as [->|Hne]; [by eapply od_get_Some_in|].
  rewrite lookup_insert_ne in Hf by done. by apply Hbc.
Qed.

Lemma mark_frame_dirty_wf s frame : cache_wf s → cache_wf (mark_frame_dirty s frame).
Proof.
  intros [Hnd Hbc]. split; [done|]. simpl. intros f [b Hb].
  apply lookup_delete_Some in Hb as [_ Hb]. apply Hbc. by eexists.
Qed.

(** What [invalidate_frames_near] does to each part of the state. *)
Lemma invalidate_frames_near_spec s center radius :
  let s' := invalidate_frames_near s center radius in
  _frame_cache s' = _frame_cache s
  ∧ (∀ f, f ∈ _dirty_frames s' ↔
          f ∈ _dirty_frames s
          ∨ (f ∈ OD.keys (_frame_cache s) ∧ Z.abs (f - center) ≤ radius))
  ∧ (∀ f, _batch_cache s' !! f
          = if decide (f ∈ OD.keys (_frame_cache s) ∧ Z.abs (f - center) ≤ radius)
            then None else _batch_cache s !! f)
  ∧ _max_cache_size s' = _max_cache_size s
  ∧ _cache_hits s' = _cache_hits s ∧ _cache_misses s' = _cache_misses s
  ∧ _last_frame s' = _last_frame s.
Proof.
  unfold invalidate_frames_near. generalize (OD.keys (_frame_cache s)) as l.
  intros l. revert s. induction l as [|k l IH]; intros s; simpl.
  - split_and!; try done.
    intros f. split; [by left|]. intros [?|[Hf _]]; [done|].
    by apply elem_of_nil in Hf.
  - case_bool_decide as Hnear.
    + destruct (IH (mark_frame_dirty s k)) as (Hfc & Hd & Hbc & Hm & Hh & Hmi & Hl).
      simpl in *. split_and!; try done.
      * intros f. rewrite Hd, elem_of_union, elem_of_singleton, elem_of_cons.
        split.
        -- intros [[->|?]|[? ?]];
             [right; split; [by left|done]|by left|right; split; [by right|done]].
        -- intros [?|[[->|?] ?]]; [left; by right|left; by left|right; by split].
      * intros f. rewrite Hbc. destruct (decide (f = k)) as [->|Hne].
        -- rewrite lookup_delete_eq. rewrite (decide_True (P := k ∈ k :: l ∧ _));
             [by case_decide|]. split; [left|done].
        -- rewrite lookup_delete_ne by done. apply decide_ext.
           rewrite elem_of_cons. tauto.
    + destruct (IH s) as (Hfc & Hd & Hbc & Hm & Hh & Hmi & Hl).
      split_and!; try done.
      * intros f. rewrite Hd, elem_of_cons. split; [tauto|].
        intros [?|[[->|?] ?]]; [by left|done|right; by split].
      * intros f. rewrite Hbc. apply decide_ext. rewrite elem_of_cons.
        split; [tauto|]. intros [[->|?] ?]; [done|by split].
Qed.

Lemma invalidate_frames_near_wf s center radius :
  cache_wf s → cache_wf (invalidate_frames_near s center radius).
Proof.
  intros [Hnd Hbc]. destruct (invalidate_frames_near_spec s center radius)
    as (Hfc & _ & Hb & _). split; [by rewrite Hfc|].
  intros f [b Hf]. rewrite Hfc. rewrite Hb in Hf. case_decide; [done|].
  apply Hbc. by eexists.
Qed.

Lemma evict_distant_frames_wf s center keep_radius :
  cache_wf s → cache_wf (evict_distant_frames s center keep_radius).
Proof.
  intros [Hnd Hbc]. destruct (evict_distant_frames_spec s center keep_radius)
    as (Hfc & Hb & _).
  pose proof (od_keys_filter (λ x, Z.abs (x - center) ≤ keep_radius)
                (_frame_cache s)) as Hk. simpl in Hk.
  split.
  - rewrite Hfc, Hk. by apply NoDup_filter.
  - intros f [b Hf]. rewrite Hb in Hf. case_decide as Hfar; [done|].
    assert (f ∈ OD.keys (_frame_cache s)) as Hin by (apply Hbc; by eexists).
    rewrite Hfc, Hk. apply list_elem_of_filter. split; [|done].
    destruct (decide (Z.abs (f - center) ≤ keep_radius)); [done|].
    exfalso. apply Hfar. split; [done|lia].
Qed.

Lemma run_op_wf s op :
  cache_wf s → cache_wf (run_op HAS_NUMPY batch_for_shader s op).
Proof.
  intros Hwf. destruct op; simpl.
  - by apply add_to_cache_wf.
  - by apply get_batch_wf.
  - by apply mark_frame_dirty_wf.
  - destruct Hwf as [Hnd _]. split; [done|]. simpl. intros f [b Hb].
    by rewrite lookup_empty in Hb.
  - by apply invalidate_frames_near_wf.
  - by apply evict_distant_frames_wf.
  - split; [constructor|]. simpl. intros f [b Hb]. by rewrite lookup_empty in Hb.
Qed.

Lemma run_op_max_cache_size s op :
  _max_cache_size (run_op HAS_NUMPY batch_for_shader s op) = _max_cache_size s.
Proof.
  destruct op; simpl; try done.
  - apply add_to_cache_max_cache_size.
  - by destruct (get_batch_frame_cache HAS_NUMPY batch_for_shader s frame)
      as (_ & ? & _).
  - by destruct (invalidate_frames_near_spec s center radius) as (_ & _ & _ & ? & _).
  - by destruct (evict_distant_frames_spec s center keep_radius)
      as (_ & _ & _ & ? & _).
Qed.

Lemma run_op_length s op :
  (length (_frame_cache s) ≤ _max_cache_size s)%nat →
  (length (_frame_cache (run_op HAS_NUMPY batch_for_shader s op))
     ≤ _max_cache_size s)%nat.
Proof.
  intros Hlen. destruct op; simpl; try done.
  - by apply add_to_cache_length.
  - by destruct (get_batch_frame_cache HAS_NUMPY batch_for_shader s frame)
      as (-> & _).
  - by destruct (invalidate_frames_near_spec s center radius) as (-> & _).
  - destruct (evict_distant_frames_spec s center keep_radius) as (-> & _).
    etrans; [apply length_filter|done].
  - lia.
Qed.
End wf_facts.

(** ** Facts about the candidate list *)

Lemma py_range_nodup (start stop step : Z) (l : list Z) :
  py_range start stop step = Returns l → NoDup l.
Proof.
  unfold py_range. case_decide as Hz; [done|]. case_decide; intros [= <-].
  - apply NoDup_fmap_2; [|apply NoDup_seqZ]. intros i j Hij. nia.
  - apply NoDup_fmap_2; [|apply NoDup_seqZ]. intros i j Hij. nia.
Qed.

Section candidates.
Context {gpu_batch : Type}.

(** The two filtered enumerations of [get_precache_frames]. *)
Lemma get_precache_frames_unfold (sc : scene) (st : settings)
    (c : cache_state gpu_batch) (direction : Z) :
  onion_skin_settings sc = Some st → 0 < frame_step st →
  ∃ ahead behind,
    get_precache_frames sc c direction
    = Returns (take 10 (sort_by_key (λ f, Z.abs (f - frame_current sc))
                                    (ahead ++ behind)))
    ∧ NoDup ahead ∧ NoDup behind
    ∧ (∀ f, f ∈ ahead → frame_current sc < f)
    ∧ (∀ f, f ∈ behind → f < frame_current sc).
Proof.
  intros Hst Hstep.
  destruct (py_range_multiples (frame_step st)
              (Z.max (frames_before st) (frames_after st) + 5) Hstep)
    as (offsets & Hrange & Hoff).
  pose proof (py_range_nodup _ _ _ _ Hrange) as Hnd.
  unfold get_precache_frames. rewrite Hst.
  destruct (get_frame_range st sc) as [rs re]. rewrite Hrange.
  eexists _, _. split; [reflexivity|]. split_and!.
  - case_bool_decide; [|constructor]. apply NoDup_filter.
    apply NoDup_fmap_2; [|done]. intros i j Hij. lia.
  - case_bool_decide; [|constructor]. apply NoDup_filter.
    apply NoDup_fmap_2; [|done]. intros i j Hij. lia.
  - intros f Hf. case_bool_decide; [|by apply elem_of_nil in Hf].
    apply list_elem_of_filter in Hf as [_ Hf].
    apply list_elem_of_fmap in Hf as (i & -> & Hi).
    apply Hoff in Hi as (k & Hk & -> & _). nia.
  - intros f Hf. case_bool_decide; [|by apply elem_of_nil in Hf].
    apply list_elem_of_filter in Hf as [_ Hf].
    apply list_elem_of_fmap in Hf as (i & -> & Hi).
    apply Hoff in Hi as (k & Hk & -> & _). nia.
Qed.
End candidates.

(** ** Facts about the monitored names *)

Section monitored.
Context (children : bobject → list bobject).

Lemma add_mesh_children_spec m l name :
  name ∈ add_mesh_children m l ↔
  name ∈ m ∨ ∃ child, child ∈ l ∧ ob_type child = MESH ∧ name = ob_name child.
Proof.
  unfold add_mesh_children. revert m. induction l as [|c l IH]; intros m; simpl.
  - split; [by left|]. intros [?|(c & Hc & _)]; [done|by apply elem_of_nil in Hc].
  - rewrite IH. case_bool_decide as Hm.
    + rewrite elem_of_union, elem_of_singleton. split.
      * intros [[?| ->]|(c' & Hc' & ? & ->)].
        -- by left.
        -- right. exists c. split; [left|done].
        -- right. exists c'. split; [by right|done].
      * intros [?|(c' & [->|Hc']%elem_of_cons & ? & ->)].
        -- left. by left.
        -- left. by right.
        -- right. by exists c'.
    + split.
      * intros [?|(c' & Hc' & ? & ->)]; [by left|].
        right. exists c'. split; [by right|done].
      * intros [?|(c' & [->|Hc']%elem_of_cons & ? & ->)]; [by left|done|].
        right. by exists c'.
Qed.

(** A name is monitored exactly when it names a tracked object, or a mesh
    child of a tracked armature while children are included. *)
Lemma monitored_names_spec include_children items name :
  name ∈ monitored_names children include_children items ↔
  ∃ obj, Some obj ∈ items
         ∧ (name = ob_name obj
            ∨ (ob_type obj = ARMATURE ∧ include_children = true
               ∧ ∃ child, child ∈ children obj ∧ ob_type child = MESH
                          ∧ name = ob_name child)).
Proof.
  unfold monitored_names.
  assert (∀ (acc : gset string),
    name ∈ foldl (monitor_item children include_children) acc items ↔
    name ∈ acc ∨ ∃ obj, Some obj ∈ items
         ∧ (name = ob_name obj
            ∨ (ob_type obj = ARMATURE ∧ include_children = true
               ∧ ∃ child, child ∈ children obj ∧ ob_type child = MESH
                          ∧ name = ob_name child))) as Hgen.
  { induction items as [|item items IH]; intros acc; simpl.
    - split; [by left|]. intros [?|(o & Ho & _)]; [done|by apply elem_of_nil in Ho].
    - rewrite IH. destruct item as [obj|].
      + simpl. destruct (bool_decide (ob_type obj = ARMATURE) && include_children) eqn:Hb.
        * apply andb_true_iff in Hb as [Harm%bool_decide_eq_true ->].
          rewrite add_mesh_children_spec, elem_of_union, elem_of_singleton. split.
          -- intros [[[?| ->]|Hch]|(o & Ho & Hn)].
             ++ by left.
             ++ right. exists obj. split; [left|by left].
             ++ right. exists obj. split; [left|]. right. by split_and!.
             ++ right. exists o. split; [by right|done].
          -- intros [?|(o & [[= ->]|Ho]%elem_of_cons & Hn)].
             ++ left. left. by left.
             ++ destruct Hn as [->|(_ & _ & Hch)].
                ** left. left. by right.
                ** left. by right.
             ++ right. by exists o.
        * rewrite elem_of_union, elem_of_singleton. split.
          -- intros [[?| ->]|(o & Ho & Hn)].
             ++ by left.
             ++ right. exists obj. split; [left|by left].
             ++ right. exists o. split; [by right|done].
          -- intros [?|(o & [[= ->]|Ho]%elem_of_cons & Hn)].
             ++ left. by left.
             ++ destruct Hn as [->|(Harm & -> & _)].
                ** left. by right.
                ** rewrite andb_true_r in Hb.
                   by apply bool_decide_eq_false in Hb.
             ++ right. by exists o.
      + split.
        * intros [?|(o & Ho & Hn)]; [by left|]. right. exists o.
          split; [by right|done].
        * intros [?|(o & [?|Ho]%elem_of_cons & Hn)]; [by left|done|].
          right. by exists o. }
  rewrite Hgen. split; [|by right]. intros [Hin|?]; [|done].
  by apply not_elem_of_empty in Hin.
Qed.
End monitored.

(** ** Facts about [get_mesh_objects] *)

Section mesh_facts.
Context (children : bobject → list bobject).

Lemma collected_add include items acc m :
  collected children include items acc →
  ob_name m ∉ acc.2 → ob_type m = MESH →
  (Some m ∈ items
   ∨ ∃ arm, Some arm ∈ items ∧ ob_type arm = ARMATURE ∧ include = true
            ∧ m ∈ children arm) →
  collected children include items (acc.1 ++ [m], acc.2 ∪ {[ob_name m]}).
Proof.
  intros (Hseen & Hnd & Hall) Hfresh Hmesh Hfrom. split_and!; simpl.
  - intros name. rewrite elem_of_union, elem_of_singleton, fmap_app, elem_of_app.
    simpl. rewrite list_elem_of_singleton. by rewrite Hseen.
  - rewrite fmap_app. apply NoDup_app. split_and!; [done| |apply NoDup_singleton].
    intros name Hin ->%list_elem_of_singleton. by apply Hfresh, Hseen.
  - intros m' [Hm'| ->%list_elem_of_singleton]%elem_of_app; [by apply Hall|done].
Qed.

Lemma add_unseen_meshes_collected include items acc arm l :
  collected children include items acc →
  Some arm ∈ items → ob_type arm = ARMATURE → include = true →
  (∀ c, c ∈ l → c ∈ children arm) →
  collected children include items (add_unseen_meshes acc l).
Proof.
  intros Hacc Harm Hty Hinc. unfold add_unseen_meshes.
  revert acc Hacc. induction l as [|c l IH]; intros [meshes seen] Hacc Hl; [done|].
  simpl. apply IH; [|intros c' Hc'; apply Hl; by right].
  destruct (bool_decide (ob_type c = MESH) && bool_decide (ob_name c ∉ seen)) eqn:Hb;
    [|done].
  apply andb_true_iff in Hb as [Hm%bool_decide_eq_true Hf%bool_decide_eq_true].
  apply (collected_add include items (meshes, seen) c); try done.
  right. exists arm. split_and!; try done. apply Hl. left.
Qed.

Lemma add_unseen_meshes_grows acc l :
  acc.2 ⊆ (add_unseen_meshes acc l).2.
Proof.
  unfold add_unseen_meshes. revert acc. induction l as [|c l IH];
    intros [meshes seen]; [done|]. simpl.
  etrans; [|apply IH].
  destruct (_ && _); simpl; [apply union_subseteq_l|done].
Qed.

Lemma collect_item_collected include items acc item :
  collected children include items acc → item ∈ items →
  collected children include items (collect_item children include acc item).
Proof.
  intros Hacc Hitem. destruct acc as [meshes seen]. unfold collect_item.
  destruct item as [obj|]; [|done]. case_bool_decide as Hseen; [done|].
  destruct (ob_type obj) eqn:Hty; [| |done].
  - apply (collected_add include items (meshes, seen) obj); try done. by left.
  - destruct include eqn:Hinc; [|done].
    by eapply add_unseen_meshes_collected.
Qed.

Lemma collect_item_grows include acc item :
  acc.2 ⊆ (collect_item children include acc item).2.
Proof.
  destruct acc as [meshes seen]. unfold collect_item.
  destruct item as [obj|]; [|done]. case_bool_decide; [done|].
  destruct (ob_type obj); [apply union_subseteq_l| |done].
  destruct include; [|done]. apply (add_unseen_meshes_grows (meshes, seen)).
Qed.

Lemma collect_item_mesh_seen include acc obj :
  ob_type obj = MESH →
  ob_name obj ∈ (collect_item children include acc (Some obj)).2.
Proof.
  intros Hty. destruct acc as [meshes seen]. unfold collect_item.
  case_bool_decide; [done|]. rewrite Hty. simpl.
  apply elem_of_union. right. by apply elem_of_singleton.
Qed.

Lemma foldl_collect_grows include acc l :
  acc.2 ⊆ (foldl (collect_item children include) acc l).2.
Proof.
  revert acc. induction l as [|x l IH]; intros acc; [done|]. simpl.
  etrans; [apply collect_item_grows|apply IH].
Qed.

Lemma foldl_collect_collected include items acc l :
  collected children include items acc → (∀ x, x ∈ l → x ∈ items) →
  collected children include items (foldl (collect_item children include) acc l).
Proof.
  revert acc. induction l as [|x l IH]; intros acc Hacc Hl; [done|]. simpl.
  apply IH; [|intros y Hy; apply Hl; by right].
  apply collect_item_collected; [done|]. apply Hl. left.
Qed.

Lemma foldl_collect_mesh_seen include acc l obj :
  Some obj ∈ l → ob_type obj = MESH →
  ob_name obj ∈ (foldl (collect_item children include) acc l).2.
Proof.
  revert acc. induction l as [|x l IH]; intros acc Hin Hty.
  - by apply elem_of_nil in Hin.
  - simpl. apply elem_of_cons in Hin as [<-|Hin]; [|by apply IH].
    apply foldl_collect_grows. by apply collect_item_mesh_seen.
Qed.
End mesh_facts.

(** ** Facts about the older cache *)

Section v1_facts.
Context {gpu_batch : Type}.
Implicit Types (s : V1.cache_state gpu_batch).

Lemma v1_add_to_cache_last_frame s frame verts indices prim :
  V1._last_frame (V1.add_to_cache s frame verts indices prim) = V1._last_frame s.
Proof.
  unfold V1.add_to_cache. destruct verts as [v|], indices as [i|]; try done.
  destruct (_ || _); [done|]. by destruct (evict_lru _ _ _ _).
Qed.

Lemma v1_add_to_cache_cached s frame verts indices prim :
  V1.truthy verts = true → V1.truthy indices = true →
  (0 < V1._max_cache_size s)%nat →
  V1.is_frame_cached (V1.add_to_cache s frame verts indices prim) frame = true.
Proof.
  intros Hv Hi Hcap. unfold V1.add_to_cache.
  destruct verts as [v|]; [|done]. destruct indices as [i|]; [|done].
  rewrite Hv, Hi. simpl. rewrite od_store_last.
  destruct (evict_lru_keeps_last
              (length (OD.del frame (V1._frame_cache s)
                       ++ [(frame, (PyList v, PyList i, prim))]))
              (V1._max_cache_size s) (OD.del frame (V1._frame_cache s)) frame
              (PyList v, PyList i, prim) (delete frame (V1._batch_cache s)) Hcap
              (od_not_in_del _ _)) as (pre & Hpre & _).
  destruct (evict_lru _ _ _ _) as [fc' bc']. simpl in *. subst fc'.
  unfold V1.is_frame_cached. simpl. apply od_mem_true.
  unfold OD.keys. rewrite fmap_app. apply elem_of_app. right. left.
Qed.
End v1_facts.

(** ** Further properties of [cache.py] *)

(** X1: every state reached from the empty cache by the module's
    operations has unique keys, a batch only for frames that have an entry,
    at most 500 entries, and the capacity 500. *)
Theorem reachable_states_are_well_formed (HAS_NUMPY : bool) {gpu_batch : Type}
    (batch_for_shader : prim_type → list vertex → list index → option gpu_batch)
    (ops : list cache_op) :
  let s := run_ops HAS_NUMPY batch_for_shader initial_state ops in
  cache_wf s
  ∧ (length (_frame_cache s) ≤ 500)%nat
  ∧ _max_cache_size s = 500%nat
  ∧ (stat_size (get_cache_stats s) ≤ stat_max_size (get_cache_stats s))%nat.
Proof.
  intros s. subst s.
  assert (cache_wf (run_ops HAS_NUMPY batch_for_shader initial_state ops)
          ∧ (length (_frame_cache
               (run_ops HAS_NUMPY batch_for_shader initial_state ops)) ≤ 500)%nat
          ∧ _max_cache_size (run_ops HAS_NUMPY batch_for_shader initial_state ops)
            = 500%nat) as (Hwf & Hlen & Hcap).
  { induction ops as [|op ops IH] using rev_ind.
    - split; [apply initial_state_wf|]. simpl. split; [lia|done].
    - unfold run_ops in *. rewrite foldl_app. simpl.
      destruct IH as (Hwf & Hlen & Hcap). split_and!.
      + by apply run_op_wf.
      + rewrite <-Hcap. apply run_op_length. by rewrite Hcap.
      + by rewrite run_op_max_cache_size. }
  split_and!; try done. simpl. by rewrite Hcap.
Qed.

(** X2: once [get_batch] has returned a batch for a frame, the next
    [get_batch] for that frame returns the same batch whatever the builder
    would now produce, leaves the batch cache as it is, and the two calls
    together raise the hit counter by 2. *)
Theorem get_batch_is_memoized (HAS_NUMPY : bool) {gpu_batch : Type}
    (batch_for_shader other_builder :
       prim_type → list vertex → list index → option gpu_batch)
    (s s1 : cache_state gpu_batch) (frame : Z) (b : gpu_batch) :
  get_batch HAS_NUMPY batch_for_shader s frame = (Returns (Some b), s1) →
  get_batch HAS_NUMPY other_builder s1 frame
  = (Returns (Some b), with_batch s1 (_batch_cache s1) (_cache_hits s + 2)).
Proof.
  unfold get_batch. case_bool_decide as Hd; [done|].
  destruct (_batch_cache s !! frame) as [b0|] eqn:Hb.
  - intros [= -> <-]. simpl. rewrite bool_decide_eq_false_2 by done.
    rewrite Hb. unfold with_batch. simpl. do 2 f_equal. lia.
  - destruct (OD.get frame (_frame_cache s)) as [[[v i] p]|]; [|done].
    destruct (to_lists HAS_NUMPY v i) as [[vl il]|]; [|done].
    destruct (batch_for_shader p vl il) as [b0|]; [|done].
    intros [= -> <-]. simpl. rewrite bool_decide_eq_false_2 by done.
    rewrite lookup_insert_eq. unfold with_batch. simpl. do 2 f_equal. lia.
Qed.

(** X3: in a well-formed state [get_batch] returns a batch only for a
    frame that [is_frame_cached] accepts; it then stores that batch under
    the frame, counts one hit and changes nothing else.  When it returns
    [None] or raises, the state is exactly as before (no sentinel is
    stored, so the next call tries again). *)
Theorem get_batch_serves_only_cached_frames (HAS_NUMPY : bool) {gpu_batch : Type}
    (batch_for_shader : prim_type → list vertex → list index → option gpu_batch)
    (s : cache_state gpu_batch) (frame : Z) :
  cache_wf s →
  let r := get_batch HAS_NUMPY batch_for_shader s frame in
  match r.1 with
  | Returns (Some b) =>
      is_frame_cached s frame = true
      ∧ r.2 = with_batch s (<[frame := b]> (_batch_cache s)) (_cache_hits s + 1)
  | _ => r.2 = s
  end.
Proof.
  intros [Hnd Hbc] r. subst r. unfold get_batch, is_frame_cached.
  case_bool_decide as Hd; [done|].
  destruct (_batch_cache s !! frame) as [b0|] eqn:Hb.
  - simpl. split.
    + apply od_mem_true, Hbc. by eexists.
    + by rewrite insert_id.
  - destruct (OD.get frame (_frame_cache s)) as [[[v i] p]|] eqn:Hget; [|done].
    destruct (to_lists HAS_NUMPY v i) as [[vl il]|]; [|done].
    destruct (batch_for_shader p vl il) as [b0|]; [|done].
    simpl. split; [|done]. by eapply od_mem_true, od_get_Some_in.
Qed.

(** X4: after [mark_all_dirty] no frame at all is cached and
    [get_batch] returns [None] for every frame without changing anything;
    the entries and the counters are kept. *)
Theorem mark_all_dirty_uncaches_everything (HAS_NUMPY : bool) {gpu_batch : Type}
    (batch_for_shader : prim_type → list vertex → list index → option gpu_batch)
    (s : cache_state gpu_batch) (frame : Z) :
  let s' := mark_all_dirty s in
  is_frame_cached s' frame = false
  ∧ get_batch HAS_NUMPY batch_for_shader s' frame = (Returns None, s')
  ∧ _frame_cache s' = _frame_cache s
  ∧ _cache_hits s' = _cache_hits s ∧ _cache_misses s' = _cache_misses s
  ∧ _dirty_frames s ⊆ _dirty_frames s'.
Proof.
  intros s'. split_and!; try done.
  - unfold is_frame_cached. case_bool_decide as Hd; [done|].
    apply od_mem_false. intros Hin. apply Hd. simpl.
    apply elem_of_union. right. by apply elem_of_list_to_set.
  - unfold get_batch. case_bool_decide as Hd; [done|].
    simpl. rewrite lookup_empty.
    rewrite od_get_None; [done|]. intros Hin. apply Hd. simpl.
    apply elem_of_union. right. by apply elem_of_list_to_set.
  - simpl. apply union_subseteq_l.
Qed.

(** X5: [invalidate_frames_near] keeps the entries and the counters; a
    frame is cached afterwards exactly when it was cached before and lies
    farther than [radius] from the centre; batches go for the entries
    within the radius and only for them. *)
Theorem invalidate_frames_near_uncaches_the_neighbourhood {gpu_batch : Type}
    (s : cache_state gpu_batch) (center radius frame : Z) :
  let s' := invalidate_frames_near s center radius in
  _frame_cache s' = _frame_cache s
  ∧ _cache_hits s' = _cache_hits s ∧ _cache_misses s' = _cache_misses s
  ∧ is_frame_cached s' frame
    = is_frame_cached s frame && negb (bool_decide (Z.abs (frame - center) ≤ radius))
  ∧ _batch_cache s' !! frame
    = (if decide (frame ∈ OD.keys (_frame_cache s) ∧ Z.abs (frame - center) ≤ radius)
       then None else _batch_cache s !! frame)
  ∧ _dirty_frames s ⊆ _dirty_frames s'.
Proof.
  intros s'. destruct (invalidate_frames_near_spec s center radius)
    as (Hfc & Hd & Hbc & _ & Hh & Hm & _). fold s' in Hfc, Hd, Hbc, Hh, Hm.
  split_and!; try done.
  - unfold is_frame_cached. rewrite Hfc.
    destruct (decide (frame ∈ _dirty_frames s)) as [Hin|Hout].
    + rewrite (bool_decide_eq_true_2 (frame ∈ _dirty_frames s')) by (apply Hd; by left).
      by rewrite bool_decide_eq_true_2 by done.
    + rewrite (bool_decide_eq_false_2 (frame ∈ _dirty_frames s)) by done.
      destruct (decide (Z.abs (frame - center) ≤ radius)) as [Hnear|Hfar].
      * rewrite (bool_decide_eq_true_2 (Z.abs _ ≤ _)) by done.
        rewrite andb_false_r. case_bool_decide as Hd'; [done|].
        apply od_mem_false. intros Hin. apply Hd', Hd. by right.
      * rewrite (bool_decide_eq_false_2 (Z.abs _ ≤ _)) by done.
        rewrite andb_true_r. rewrite bool_decide_eq_false_2; [done|].
        intros [?|[_ ?]]%Hd; done.
  - intros f Hf. apply Hd. by left.
Qed.

Lemma do_add_counters (HAS_NUMPY : bool) {gpu_batch : Type}
    (s : cache_state gpu_batch) (c : add_call) :
  _cache_misses (do_add HAS_NUMPY s c)
  = _cache_misses s + (if stores HAS_NUMPY c then 1 else 0)
  ∧ _cache_hits (do_add HAS_NUMPY s c) = _cache_hits s
  ∧ _last_frame (do_add HAS_NUMPY s c) = _last_frame s.
Proof.
  unfold do_add, stores, add_to_cache.
  destruct (call_verts c) as [v|], (call_indices c) as [i|];
    try (simpl; split_and!; [lia|done|done]).
  destruct (empty_data HAS_NUMPY v i); simpl; [split_and!; [lia|done|done]|].
  by destruct (evict_lru _ _ _ _).
Qed.

(** X6: over any sequence of [add_to_cache] calls the miss counter goes
    up by one for each call that stores (those with empty or missing data
    count nothing), and the hit counter and [_last_frame] do not move. *)
Theorem add_counts_one_miss_per_store (HAS_NUMPY : bool) {gpu_batch : Type}
    (s : cache_state gpu_batch) (calls : list add_call) :
  let s' := run_adds HAS_NUMPY s calls in
  _cache_misses s'
  = _cache_misses s + Z.of_nat (length (filter (stores HAS_NUMPY) calls))
  ∧ _cache_hits s' = _cache_hits s
  ∧ _last_frame s' = _last_frame s.
Proof.
  intros s'. subst s'. induction calls as [|c calls IH] using rev_ind.
  - simpl. split; [lia|done].
  - unfold run_adds in *. rewrite foldl_app. simpl.
    destruct IH as (IHm & IHh & IHl).
    destruct (do_add_counters HAS_NUMPY (foldl (do_add HAS_NUMPY) s calls) c)
      as (Hm & Hh & Hl).
    rewrite Hm, Hh, Hl, IHm, IHh, IHl. split_and!; [|done|done].
    rewrite filter_app, length_app, filter_cons, filter_nil.
    destruct (stores HAS_NUMPY c); simpl; lia.
Qed.


(** X8: adding a frame that already has an entry (unique keys, size
    within capacity) evicts nothing: the frame moves to the most recent
    position, the others keep their order, and the set of cached keys is
    the same. *)
Theorem readd_refreshes_without_eviction (HAS_NUMPY : bool) {gpu_batch : Type}
    (s : cache_state gpu_batch) (frame : Z) (v : py_seq vertex)
    (i : py_seq index) (prim : prim_type) :
  NoDup (OD.keys (_frame_cache s)) →
  (length (_frame_cache s) ≤ _max_cache_size s)%nat →
  frame ∈ OD.keys (_frame_cache s) →
  py_len v ≠ 0%nat → py_len i ≠ 0%nat →
  let s' := add_to_cache HAS_NUMPY s frame (Some v) (Some i) prim in
  OD.keys (_frame_cache s')
  = filter (λ x, x ≠ frame) (OD.keys (_frame_cache s)) ++ [frame]
  ∧ OD.keys (_frame_cache s') ≡ₚ OD.keys (_frame_cache s)
  ∧ length (_frame_cache s') = length (_frame_cache s).
Proof.
  intros Hnd Hlen Hin Hv Hi s'.
  pose proof (empty_data_nonempty HAS_NUMPY _ _ Hv Hi) as He.
  pose proof (add_to_cache_stored HAS_NUMPY s frame v i prim He) as Hs'.
  cbv zeta in Hs'. fold s' in Hs'.
  set (stored := stored_last s frame (v, i, prim)) in *.
  pose proof (stored_last_nodup s frame (v, i, prim) Hnd) as Hnds. fold stored in Hnds.
  assert (OD.keys stored ≡ₚ OD.keys (_frame_cache s)) as Hperm.
  { apply NoDup_Permutation; [done|done|]. intros x. unfold stored.
    rewrite stored_last_keys, elem_of_app, list_elem_of_filter,
      list_elem_of_singleton.
    split; [intros [[_ ?]| ->]; done|].
    intros Hx. destruct (decide (x = frame)); [by right|by left]. }
  assert (length stored = length (_frame_cache s)) as Hlens.
  { rewrite <-(length_fmap fst stored), <-(length_fmap fst (_frame_cache s)).
    by apply Permutation_length. }
  assert (_frame_cache s' = stored) as Hfc.
  { rewrite Hs'. simpl. rewrite evict_lru_drop by done.
    replace (length stored - _max_cache_size s)%nat with 0%nat by lia. done. }
  rewrite Hfc. split_and!; [|done|done].
  unfold stored. apply stored_last_keys.
Qed.

(** ** Further properties of [async_cache.py] *)

(** X9: with a positive step, the candidate list of
    [get_precache_frames] has no repeated frame and never contains the
    current frame. *)
Theorem precache_frames_are_distinct {gpu_batch : Type} (sc : scene) (st : settings)
    (c : cache_state gpu_batch) (direction : Z) (frames : list Z) :
  onion_skin_settings sc = Some st →
  0 < frame_step st →
  get_precache_frames sc c direction = Returns frames →
  NoDup frames ∧ frame_current sc ∉ frames.
Proof.
  intros Hst Hstep Hret.
  destruct (get_precache_frames_unfold sc st c direction Hst Hstep)
    as (ahead & behind & Heq & Hna & Hnb & Ha & Hb).
  rewrite Heq in Hret. injection Hret as <-.
  assert (NoDup (ahead ++ behind)) as Hnd.
  { apply NoDup_app. split_and!; [done| |done].
    intros f Hfa Hfb. apply Ha in Hfa. apply Hb in Hfb. lia. }
  split.
  - eapply sublist_NoDup; [|apply sublist_take]. by rewrite sort_by_key_perm.
  - intros Hin.
    assert (frame_current sc ∈ ahead ++ behind) as Hin'.
    { rewrite <-(sort_by_key_perm (λ f, Z.abs (f - frame_current sc))).
      eapply elem_of_sublist; [exact Hin|apply sublist_take]. }
    apply elem_of_app in Hin' as [Hf|Hf].
    + apply Ha in Hf. lia.
    + apply Hb in Hf. lia.
Qed.

(** X10: [get_precache_frames] raises exactly when the scene has no
    onion-skin settings or the frame step is zero. *)
Theorem get_precache_frames_raises_iff {gpu_batch : Type} (sc : scene)
    (c : cache_state gpu_batch) (direction : Z) :
  get_precache_frames sc c direction = Raises ↔
  onion_skin_settings sc = None
  ∨ ∃ st, onion_skin_settings sc = Some st ∧ frame_step st = 0.
Proof.
  unfold get_precache_frames, py_range.
  destruct (onion_skin_settings sc) as [st|]; [|split; [by left|done]].
  destruct (get_frame_range st sc) as [rs re].
  destruct (decide (frame_step st = 0)) as [Hz|Hnz].
  - split; [|done]. intros _. right. by exists st.
  - split.
    + by case_decide.
    + intros [?|(st' & [= <-] & ?)]; done.
Qed.

(** X11: how one background step ends.  When the timer is told to stop,
    the [_is_caching] flag is down; when it is told to run again, frames
    are pending; and the step raises only with an empty queue, leaving
    everything as it was. *)
Theorem background_step_outcome {gpu_batch : Type}
    (cache_frame : world gpu_batch → Z → py_result bool * world gpu_batch)
    (w : world gpu_batch) :
  let r := _background_cache_step cache_frame w in
  match r.1 with
  | Returns Stop => _is_caching r.2 = false
  | Returns Again => _pending_frames r.2 ≠ []
  | Raises => r.2 = w ∧ _pending_frames w = []
  end.
Proof.
  unfold _background_cache_step.
  destruct (context_ok w); simpl; [|done].
  destruct (onion_skin_settings (the_scene w)) as [st|]; [|done].
  destruct (negb (enabled st) || _); [done|].
  assert (∀ frame rest,
    let r := (let w1 := set_pending w rest in
       let original_frame := frame_current (the_scene w1) in
       let w2 := (cache_frame w1 frame).2 in
       let w3 :=
         if bool_decide (frame_current (the_scene w2) ≠ original_frame)
         then frame_set w2 original_frame else w2 in
       match _pending_frames w3 with
       | [] => (Returns Stop, set_is_caching w3 false)
       | _ => (Returns Again, w3)
       end) in
    match r.1 with
    | Returns Stop => _is_caching r.2 = false
    | Returns Again => _pending_frames r.2 ≠ []
    | Raises => r.2 = w ∧ _pending_frames w = []
    end) as Hstep.
  { intros frame rest. simpl.
    destruct (_pending_frames (if bool_decide _ then _ else _)) eqn:Hp; [done|].
    simpl. by rewrite Hp. }
  destruct (_pending_frames w) as [|frame rest] eqn:Hpend; [|apply Hstep].
  destruct (get_precache_frames (the_scene w) (the_cache w) 0) as [[|frame rest]|];
    [done|apply Hstep|done].
Qed.

Lemma background_step_keeps_flag {gpu_batch : Type}
    (cache_frame : world gpu_batch → Z → py_result bool * world gpu_batch)
    (w : world gpu_batch) :
  flag_means_pending w →
  flag_means_pending (_background_cache_step cache_frame w).2.
Proof.
  unfold _background_cache_step, flag_means_pending. intros Hw.
  destruct (context_ok w); simpl; [|done].
  destruct (onion_skin_settings (the_scene w)) as [st|]; [|done].
  destruct (negb (enabled st) || _); [done|].
  assert (∀ frame rest,
    let r := (let w1 := set_pending w rest in
       let original_frame := frame_current (the_scene w1) in
       let w2 := (cache_frame w1 frame).2 in
       let w3 :=
         if bool_decide (frame_current (the_scene w2) ≠ original_frame)
         then frame_set w2 original_frame else w2 in
       match _pending_frames w3 with
       | [] => (Returns Stop, set_is_caching w3 false)
       | _ => (Returns Again, w3)
       end) in
    _is_caching r.2 = true → _pending_frames r.2 ≠ []) as Hstep.
  { intros frame rest. simpl.
    destruct (_pending_frames (if bool_decide _ then _ else _)) eqn:Hp; [done|].
    simpl. by rewrite Hp. }
  destruct (_pending_frames w) as [|frame rest] eqn:Hpend; [|apply Hstep].
  destruct (get_precache_frames (the_scene w) (the_cache w) 0) as [[|frame rest]|];
    [done|apply Hstep|]. simpl. rewrite Hpend. exact Hw.
Qed.

(** X12: "the flag is up only while frames are pending" is kept by one
    background step, by [start_background_caching], by
    [stop_background_caching] and by the frame-change and load handlers;
    the start, the stop and the frame-change handler never touch the cache
    or the scene. *)
Theorem flag_means_pending_is_kept {gpu_batch : Type}
    (cache_frame : world gpu_batch → Z → py_result bool * world gpu_batch)
    (w : world gpu_batch) :
  flag_means_pending w →
  flag_means_pending (_background_cache_step cache_frame w).2
  ∧ flag_means_pending (start_background_caching w).2
  ∧ flag_means_pending (stop_background_caching w)
  ∧ flag_means_pending (on_frame_change w)
  ∧ flag_means_pending (on_load w)
  ∧ the_cache (start_background_caching w).2 = the_cache w
  ∧ the_scene (start_background_caching w).2 = the_scene w
  ∧ the_cache (on_frame_change w) = the_cache w
  ∧ the_scene (on_frame_change w) = the_scene w
  ∧ is_caching (stop_background_caching w) = false.
Proof.
  intros Hw.
  assert (flag_means_pending (start_background_caching w).2
          ∧ the_cache (start_background_caching w).2 = the_cache w
          ∧ the_scene (start_background_caching w).2 = the_scene w)
    as (Hstart & Hsc & Hss).
  { unfold start_background_caching.
    destruct (_is_caching w) eqn:Hflag; [done|].
    destruct (negb (context_ok w)); [done|].
    destruct (onion_skin_settings (the_scene w)) as [st|]; [|done].
    destruct (negb (enabled st)); [done|].
    destruct (get_precache_frames (the_scene w) (the_cache w) 0)
      as [[|frame rest]|]; [|done|done].
    split; [|done]. unfold flag_means_pending. simpl. by rewrite Hflag. }
  split_and!; try done.
  - by apply background_step_keeps_flag.
  - unfold on_frame_change. destruct (onion_skin_settings (the_scene w)) as [st|];
      [|done]. by destruct (negb (enabled st)).
  - unfold on_frame_change. destruct (onion_skin_settings (the_scene w)) as [st|];
      [|done]. by destruct (negb (enabled st)).
  - unfold on_frame_change. destruct (onion_skin_settings (the_scene w)) as [st|];
      [|done]. by destruct (negb (enabled st)).
Qed.

(** X13: when the step does not abort, frames are pending and
    [cache_frame] leaves the queue alone, the step takes exactly the head
    of the queue: [cache_frame] runs once, on that frame, the rest of the
    queue stays, and the timer runs again exactly when the rest is not
    empty. *)
Theorem background_step_consumes_head {gpu_batch : Type}
    (cache_frame : world gpu_batch → Z → py_result bool * world gpu_batch)
    (w : world gpu_batch) (frame : Z) (rest : list Z) :
  (∀ w0 f, _pending_frames (cache_frame w0 f).2 = _pending_frames w0) →
  step_aborts w = false →
  _pending_frames w = frame :: rest →
  let r := _background_cache_step cache_frame w in
  let cached := (cache_frame (set_pending w rest) frame).2 in
  _pending_frames r.2 = rest
  ∧ r.1 = Returns (match rest with [] => Stop | _ => Again end)
  ∧ the_cache r.2 = the_cache cached
  ∧ frame_current (the_scene r.2) = frame_current (the_scene w).
Proof.
  intros Hq Hgo Hpend. unfold step_aborts in Hgo.
  apply orb_false_iff in Hgo as [Hctx Hgo]. apply negb_false_iff in Hctx.
  unfold _background_cache_step. rewrite Hctx. simpl.
  destruct (onion_skin_settings (the_scene w)) as [st|]; [|done].
  rewrite Hgo, Hpend. simpl.
  set (w2 := (cache_frame (set_pending w rest) frame).2).
  assert (_pending_frames w2 = rest) as Hw2 by (unfold w2; by rewrite Hq).
  destruct (bool_decide (frame_current (the_scene w2) ≠ _)) eqn:Hmoved; simpl.
  - rewrite Hw2. by destruct rest.
  - rewrite Hw2. apply bool_decide_eq_false in Hmoved. apply dec_stable in Hmoved.
    by destruct rest.
Qed.

(** ** [handlers.on_depsgraph_update] *)

(** X14: the handler either leaves the cache as it is or marks every
    entry dirty, and it marks exactly when the feature is enabled and some
    update with a geometry or transform change names a tracked object, or
    a mesh child of a tracked armature while children are included.  The
    entries and the counters are never touched. *)
Theorem on_depsgraph_update_invalidates_iff {gpu_batch : Type}
    (children : bobject → list bobject) (st : option settings)
    (include_children : bool) (items : list (option bobject))
    (updates : list depsgraph_update) (s : cache_state gpu_batch) :
  let s' := on_depsgraph_update children st include_children items updates s in
  let hit :=
    ∃ st0 u obj name,
      st = Some st0 ∧ enabled st0 = true
      ∧ u ∈ updates ∧ upd_name u = Some name
      ∧ (is_updated_geometry u = true ∨ is_updated_transform u = true)
      ∧ Some obj ∈ items
      ∧ (name = ob_name obj
         ∨ (ob_type obj = ARMATURE ∧ include_children = true
            ∧ ∃ child, child ∈ children obj ∧ ob_type child = MESH
                       ∧ name = ob_name child)) in
  ((hit ∧ s' = mark_all_dirty s) ∨ (¬ hit ∧ s' = s))
  ∧ _frame_cache s' = _frame_cache s
  ∧ _cache_hits s' = _cache_hits s ∧ _cache_misses s' = _cache_misses s.
Proof.
  intros s' hit. subst s'. unfold on_depsgraph_update.
  destruct st as [st0|]; [|split; [right; split; [|done]|done]].
  2: { intros (? & ? & ? & ? & [=] & _). }
  destruct (enabled st0) eqn:Hen; simpl.
  2: { split; [right; split; [|done]|done].
       intros (? & ? & ? & ? & [= <-] & ? & _). congruence. }
  destruct (needs_invalidate _ updates) eqn:Hneed.
  - split; [left; split; [|done]|done].
    unfold needs_invalidate in Hneed. apply existsb_exists in Hneed as (u & Hu & Hm).
    destruct (upd_name u) as [name|] eqn:Hname; [|done].
    apply andb_true_iff in Hm as [Hin%bool_decide_eq_true Hflags].
    apply monitored_names_spec in Hin as (obj & Hobj & Hn).
    exists st0, u, obj, name. split_and!; try done.
    + by apply list_elem_of_In.
    + by apply orb_true_iff.
  - split; [right; split; [|done]|done].
    intros (st1 & u & obj & name & [= <-] & _ & Hu & Hname & Hflags & Hobj & Hn).
    assert (needs_invalidate (monitored_names children include_children items)
                             updates = true) as Hyes; [|congruence].
    unfold needs_invalidate. apply existsb_exists. exists u.
    split; [by apply list_elem_of_In|]. rewrite Hname.
    apply andb_true_iff. split; [|by apply orb_true_iff].
    apply bool_decide_eq_true, monitored_names_spec. by exists obj.
Qed.

(** ** [operators.py] *)

(** X15: the two adding operators keep the tracked objects free of
    duplicates (given a selection without duplicates), add only meshes and
    armatures, and keep the earlier items in place; the picker is always
    unset after a pick was made. *)
Theorem adding_keeps_objects_distinct {gpu_batch : Type}
    (items : list (option bobject)) (selected_objects : list bobject)
    (pick : bobject) (s : cache_state gpu_batch) :
  NoDup (existing_objects items) →
  NoDup selected_objects →
  let added := add_object_execute items selected_objects s in
  let picked := add_from_picker_execute (Some pick) items s in
  NoDup (existing_objects added.1.1)
  ∧ items `prefix_of` added.1.1
  ∧ (∀ obj, obj ∈ existing_objects added.1.1 → obj ∉ existing_objects items →
            supported obj = true ∧ obj ∈ selected_objects)
  ∧ NoDup (existing_objects picked.1.2)
  ∧ items `prefix_of` picked.1.2
  ∧ picked.1.1.2 = None
  ∧ (supported pick = true → pick ∈ existing_objects picked.1.2).
Proof.
  intros Hnd Hsel added picked. subst added picked.
  unfold add_object_execute, add_from_picker_execute, existing_objects. simpl.
  set (new := filter _ selected_objects).
  assert (omap id (Some <$> new) = new) as Hnew.
  { induction new as [|x l IH]; [done|]. csimpl. by rewrite IH. }
  split_and!.
  - rewrite omap_app, Hnew. apply NoDup_app. split_and!; [done| |].
    + intros x Hx [[_ Hnot] _]%list_elem_of_filter. by apply Hnot.
    + by apply NoDup_filter.
  - by apply prefix_app_r.
  - intros obj. rewrite omap_app, Hnew, elem_of_app.
    intros [?|[[? _] ?]%list_elem_of_filter] Hnot; done.
  - destruct (supported pick); simpl; [|done].
    case_bool_decide as Hfresh; simpl; [|done].
    rewrite omap_app. simpl. apply NoDup_app. split_and!; [done| |apply NoDup_singleton].
    intros x Hx ->%list_elem_of_singleton. by apply Hfresh.
  - destruct (supported pick); simpl; [|done].
    case_bool_decide; simpl; [by apply prefix_app_r|done].
  - destruct (supported pick); simpl; [|done]. by case_bool_decide.
  - intros ->. simpl. case_bool_decide as Hfresh; simpl.
    + rewrite omap_app. apply elem_of_app. right. simpl. left.
    + done.
Qed.

(** X16: removing by index.  An index outside the collection changes
    nothing, neither the collection nor the cache nor the active index; an
    index inside removes exactly that item, and [remove_selected] leaves
    the active index inside the collection whenever items remain. *)
Theorem removing_respects_bounds {gpu_batch : Type}
    (items : list (option bobject)) (index : Z) (s : cache_state gpu_batch) :
  let removed := remove_object_execute index items s in
  let selected := remove_selected_execute items index s in
  (¬ (0 ≤ index < Z.of_nat (length items)) →
   removed = (items, s) ∧ selected = (items, index, s))
  ∧ (0 ≤ index < Z.of_nat (length items) →
     removed.1 = take (Z.to_nat index) items ++ drop (S (Z.to_nat index)) items
     ∧ S (length removed.1) = length items
     ∧ selected.1.1 = removed.1
     ∧ (selected.1.1 ≠ [] → 0 ≤ selected.1.2 < Z.of_nat (length selected.1.1))).
Proof.
  intros removed selected. subst removed selected.
  unfold remove_object_execute, remove_selected_execute. split.
  - intros Hout. by rewrite !bool_decide_eq_false_2 by done.
  - intros Hin. rewrite !bool_decide_eq_true_2 by done. simpl.
    assert (S (length (delete (Z.to_nat index) items)) = length items) as Hlen.
    { rewrite length_delete; [lia|]. apply lookup_lt_is_Some. lia. }
    split_and!; try done.
    + apply delete_take_drop.
    + intros Hne. destruct (delete (Z.to_nat index) items) as [|x l] eqn:Hdel;
        [done|]. simpl in *.
      case_bool_decide as Hge; simpl; lia.
Qed.

(** X17: an operator clears the cache exactly when it changes the
    tracked collection: adding nothing, picking an object already tracked
    or removing at an index out of range leaves the cache untouched, any
    real change empties it.  [clear_all] empties it in any case. *)
Theorem cache_cleared_iff_collection_changed {gpu_batch : Type}
    (items : list (option bobject)) (selected_objects : list bobject)
    (pick : option bobject) (index : Z) (s : cache_state gpu_batch) :
  let changed (items' : list (option bobject)) (s' : cache_state gpu_batch) :=
    (items' = items ∧ s' = s) ∨ (items' ≠ items ∧ s' = clear_cache s) in
  changed (add_object_execute items selected_objects s).1.1
          (add_object_execute items selected_objects s).1.2
  ∧ changed (add_from_picker_execute pick items s).1.2
            (add_from_picker_execute pick items s).2
  ∧ changed (remove_object_execute index items s).1
            (remove_object_execute index items s).2
  ∧ changed (remove_selected_execute items index s).1.1
            (remove_selected_execute items index s).2
  ∧ (clear_all_execute items s).2 = clear_cache s
  ∧ (clear_all_execute items s).1 = [].
Proof.
  intros changed. subst changed. simpl.
  assert (∀ (l : list (option bobject)) x, l ++ [x] ≠ l) as Hsnoc.
  { intros l x Heq. apply (f_equal length) in Heq. rewrite length_app in Heq.
    simpl in Heq. lia. }
  split_and!; try done.
  - unfold add_object_execute. simpl.
    destruct (filter _ selected_objects) as [|x l]; simpl.
    + left. by rewrite app_nil_r.
    + right. split; [|done]. intros Heq. apply (f_equal length) in Heq.
      rewrite length_app in Heq. simpl in Heq. lia.
  - unfold add_from_picker_execute. destruct pick as [obj|]; [|by left].
    destruct (supported obj); simpl; [|by left].
    case_bool_decide; simpl; [right; by split|by left].
  - unfold remove_object_execute. case_bool_decide as Hin; simpl; [|by left].
    right. split; [|done]. intros Heq. apply (f_equal length) in Heq.
    rewrite length_delete in Heq; [|apply lookup_lt_is_Some; lia].
    destruct items; simpl in *; lia.
  - unfold remove_selected_execute. case_bool_decide as Hin; simpl; [|by left].
    right. split; [|done]. intros Heq. apply (f_equal length) in Heq.
    rewrite length_delete in Heq; [|apply lookup_lt_is_Some; lia].
    destruct items; simpl in *; lia.
Qed.

(** ** Baking *)

Section bake_facts.
Context {gpu_batch : Type}.
Context (cache_frame : world gpu_batch → Z → py_result bool * world gpu_batch).



Lemma bake_loop_raises frames w baked w' :
  bake_loop cache_frame frames w baked = (Raises, w') →
  ∃ w0 f, f ∈ frames ∧ is_frame_cached (the_cache w0) f = false
          ∧ cache_frame w0 f = (Raises, w').
Proof.
  revert w baked. induction frames as [|f frames IH]; intros w baked; simpl; [done|].
  destruct (is_frame_cached (the_cache w) f) eqn:Hc.
  - intros (w0 & f0 & ? & ?)%IH. exists w0, f0. split; [by right|done].
  - destruct (cache_frame w f) as [[[]|] w1] eqn:Hcf.
    + intros (w0 & f0 & ? & ?)%IH. exists w0, f0. split; [by right|done].
    + intros (w0 & f0 & ? & ?)%IH. exists w0, f0. split; [by right|done].
    + intros [= <-]. exists w, f. split; [left|done].
Qed.

End bake_facts.



(** X20: the bake has no handler around [cache_frame]: when it raises,
    the settings being present and the step not zero, the state is the one
    a failing [cache_frame] call on an uncached frame of the range left
    behind, the scene frame included. *)
Theorem bake_propagates_cache_frame_failure {gpu_batch : Type}
    (cache_frame : world gpu_batch → Z → py_result bool * world gpu_batch)
    (w w' : world gpu_batch) (st : settings) :
  onion_skin_settings (the_scene w) = Some st →
  frame_step st ≠ 0 →
  bake_cache_execute cache_frame w = (Raises, w') →
  ∃ w0 frame frames,
    py_range (get_frame_range st (the_scene w)).1
             ((get_frame_range st (the_scene w)).2 + 1) (frame_step st)
    = Returns frames
    ∧ frame ∈ frames
    ∧ is_frame_cached (the_cache w0) frame = false
    ∧ cache_frame w0 frame = (Raises, w').
Proof.
  intros Hst Hstep. unfold bake_cache_execute. rewrite Hst.
  destruct (get_frame_range st (the_scene w)) as [start end_] eqn:Hr. simpl.
  destruct (py_range start (end_ + 1) (frame_step st)) as [frames|] eqn:Hpr.
  - destruct (bake_loop cache_frame frames w 0) as [[n|] wb] eqn:Hb; [done|].
    intros [= <-]. apply bake_loop_raises in Hb as (w0 & f & Hf & Hc & Hcf).
    by exists w0, f, frames.
  - unfold py_range in Hpr. rewrite decide_False in Hpr by done.
    by case_decide.
Qed.

(** ** Properties of [drawing.py] *)

(** X21: [get_mesh_objects] yields meshes only, no two with the same
    name; each is a tracked object or, children being included, a child of
    a tracked armature; and every tracked mesh is represented by name. *)
Theorem get_mesh_objects_are_distinct_meshes (children : bobject → list bobject)
    (opts : draw_options) (items : list (option bobject)) :
  let meshes := get_mesh_objects children opts items in
  NoDup (ob_name <$> meshes)
  ∧ (∀ m, m ∈ meshes →
       ob_type m = MESH
       ∧ (Some m ∈ items
          ∨ ∃ arm, Some arm ∈ items ∧ ob_type arm = ARMATURE
                   ∧ include_children opts = true ∧ m ∈ children arm))
  ∧ (∀ obj, Some obj ∈ items → ob_type obj = MESH →
       ob_name obj ∈ ob_name <$> meshes).
Proof.
  intros meshes. subst meshes. unfold get_mesh_objects.
  assert (collected children (include_children opts) items ([], ∅)) as Hinit.
  { split_and!; simpl.
    - intros name. split; intros Hn; [by apply not_elem_of_empty in Hn|].
      by apply elem_of_nil in Hn.
    - constructor.
    - intros m Hm. by apply elem_of_nil in Hm. }
  destruct (foldl_collect_collected children (include_children opts) items
              ([], ∅) items Hinit) as (Hseen & Hnd & Hall); [done|].
  split_and!; [done|done|].
  intros obj Hobj Hty. apply Hseen. by apply foldl_collect_mesh_seen.
Qed.

Section needed_frames.
Context {float : Type} (one_over : Z → float) (times : Z → float → float).

(** X22: with a positive step, every frame [get_needed_frames] asks for
    lies a positive multiple of the step from the current frame, at most
    [frames_before] behind it (its side being shown and the frame not
    before the range start) or at most [frames_after] ahead of it (not
    past the range end); no frame is asked for twice; and with a custom
    range in use all of them are inside the range, none at all being asked
    for when the current frame is outside it. *)
Theorem needed_frames_are_in_reach (current : Z) (st : settings)
    (opts : draw_options) (sc : scene) :
  0 < frame_step st →
  let range_start := (get_frame_range st sc).1 in
  let range_end := (get_frame_range st sc).2 in
  ∃ frames,
    get_needed_frames one_over times current st opts sc = Returns frames
    ∧ (∀ f side t i, (f, side, t, i) ∈ frames →
         (∃ k, 1 ≤ k ∧ i = k * frame_step st)
         ∧ match side with
           | Before =>
               show_before opts = true ∧ f = current - i
               ∧ i ≤ frames_before st ∧ range_start ≤ f
               ∧ t = scaled times i (inv_max_of one_over (frames_before st))
           | After =>
               show_after opts = true ∧ f = current + i
               ∧ i ≤ frames_after st ∧ f ≤ range_end
               ∧ t = scaled times i (inv_max_of one_over (frames_after st))
           end
         ∧ (use_frame_range st = true → range_start ≤ f ≤ range_end))
    ∧ NoDup (frames.*1.*1.*1)
    ∧ (use_frame_range st = true → ¬ (range_start ≤ current ≤ range_end) →
       frames = []).
Proof.
  intros Hstep range_start range_end. subst range_start range_end.
  unfold get_needed_frames. destruct (get_frame_range st sc) as [rs re]. simpl.
  destruct (use_frame_range st && _) eqn:Hguard.
  { eexists. split; [done|]. split_and!; [|constructor|done].
    intros f side t i Hin. by apply elem_of_nil in Hin. }
  assert (use_frame_range st = true → rs ≤ current ≤ re) as Hinside.
  { intros Hu. rewrite Hu in Hguard. simpl in Hguard.
    apply orb_false_iff in Hguard as [H1%bool_decide_eq_false H2%bool_decide_eq_false].
    lia. }
  destruct (py_range_multiples (frame_step st) (frames_before st) Hstep)
    as (offs_b & Hrb & Hob).
  destruct (py_range_multiples (frame_step st) (frames_after st) Hstep)
    as (offs_a & Hra & Hoa).
  pose proof (py_range_nodup _ _ _ _ Hrb) as Hndb.
  pose proof (py_range_nodup _ _ _ _ Hra) as Hnda.
  rewrite Hrb, Hra.
  set (fb := (λ i, (current - i, Before,
                    scaled times i (inv_max_of one_over (frames_before st)), i))
               <$> filter (λ i, rs ≤ current - i) offs_b).
  set (fa := (λ i, (current + i, After,
                    scaled times i (inv_max_of one_over (frames_after st)), i))
               <$> filter (λ i, current + i ≤ re) offs_a).
  assert (∀ f side t i, (f, side, t, i) ∈ fb →
            side = Before ∧ f = current - i ∧ rs ≤ f ∧ i ∈ offs_b
            ∧ t = scaled times i (inv_max_of one_over (frames_before st))) as Hfb.
  { intros f side t i (j & [= -> -> -> ->] & [? ?]%list_elem_of_filter)%list_elem_of_fmap.
    done. }
  assert (∀ f side t i, (f, side, t, i) ∈ fa →
            side = After ∧ f = current + i ∧ f ≤ re ∧ i ∈ offs_a
            ∧ t = scaled times i (inv_max_of one_over (frames_after st))) as Hfa.
  { intros f side t i (j & [= -> -> -> ->] & [? ?]%list_elem_of_filter)%list_elem_of_fmap.
    done. }
  assert (NoDup (fb.*1.*1.*1)) as Hnfb.
  { unfold fb. rewrite <-!list_fmap_compose. apply NoDup_fmap_2.
    - intros i j Hij. simpl in Hij. lia.
    - by apply NoDup_filter. }
  assert (NoDup (fa.*1.*1.*1)) as Hnfa.
  { unfold fa. rewrite <-!list_fmap_compose. apply NoDup_fmap_2.
    - intros i j Hij. simpl in Hij. lia.
    - by apply NoDup_filter. }
  assert (∀ f, f ∈ fb.*1.*1.*1 → f < current) as Hltb.
  { intros f Hf. unfold fb in Hf. rewrite <-!list_fmap_compose in Hf.
    apply list_elem_of_fmap in Hf as (i & -> & [_ Hi]%list_elem_of_filter).
    apply Hob in Hi as (k & ? & -> & _). simpl. nia. }
  assert (∀ f, f ∈ fa.*1.*1.*1 → current < f) as Hgta.
  { intros f Hf. unfold fa in Hf. rewrite <-!list_fmap_compose in Hf.
    apply list_elem_of_fmap in Hf as (i & -> & [_ Hi]%list_elem_of_filter).
    apply Hoa in Hi as (k & ? & -> & _). simpl. nia. }
  assert (∀ f side t i, (f, side, t, i) ∈ fb → show_before opts = true →
    (∃ k, 1 ≤ k ∧ i = k * frame_step st)
    ∧ match side with
      | Before => show_before opts = true ∧ f = current - i
                  ∧ i ≤ frames_before st ∧ rs ≤ f
                  ∧ t = scaled times i (inv_max_of one_over (frames_before st))
      | After => show_after opts = true ∧ f = current + i
                 ∧ i ≤ frames_after st ∧ f ≤ re
                 ∧ t = scaled times i (inv_max_of one_over (frames_after st))
      end
    ∧ (use_frame_range st = true → rs ≤ f ≤ re)) as Hb_ok.
  { intros f side t i Hin Hshow.
    destruct (Hfb _ _ _ _ Hin) as (-> & -> & Hrs & Hi & ->).
    apply Hob in Hi as (k & Hk & -> & Hle).
    split; [by exists k|]. split; [done|]. intros Hu. specialize (Hinside Hu). nia. }
  assert (∀ f side t i, (f, side, t, i) ∈ fa → show_after opts = true →
    (∃ k, 1 ≤ k ∧ i = k * frame_step st)
    ∧ match side with
      | Before => show_before opts = true ∧ f = current - i
                  ∧ i ≤ frames_before st ∧ rs ≤ f
                  ∧ t = scaled times i (inv_max_of one_over (frames_before st))
      | After => show_after opts = true ∧ f = current + i
                 ∧ i ≤ frames_after st ∧ f ≤ re
                 ∧ t = scaled times i (inv_max_of one_over (frames_after st))
      end
    ∧ (use_frame_range st = true → rs ≤ f ≤ re)) as Ha_ok.
  { intros f side t i Hin Hshow.
    destruct (Hfa _ _ _ _ Hin) as (-> & -> & Hre & Hi & ->).
    apply Hoa in Hi as (k & Hk & -> & Hle).
    split; [by exists k|]. split; [done|]. intros Hu. specialize (Hinside Hu). nia. }
  destruct (show_before opts) eqn:Hsb, (show_after opts) eqn:Hsa;
    eexists; (split; [reflexivity|]); split_and!.
  - intros f side t i [Hin|Hin]%elem_of_app; [by apply Hb_ok|by apply Ha_ok].
  - rewrite !fmap_app. apply NoDup_app. split_and!; [done| |done].
    intros f Hb Ha. apply Hltb in Hb. apply Hgta in Ha. lia.
  - intros Hu Hout. by specialize (Hinside Hu).
  - intros f side t i Hin. by apply Hb_ok.
  - done.
  - intros Hu Hout. by specialize (Hinside Hu).
  - intros f side t i Hin. by apply Ha_ok.
  - done.
  - intros Hu Hout. by specialize (Hinside Hu).
  - intros f side t i Hin. by apply elem_of_nil in Hin.
  - constructor.
  - intros Hu Hout. by specialize (Hinside Hu).
Qed.
End needed_frames.

(** ** Drawing and pre-caching together *)

Section coverage.
Context {gpu_batch : Type}.
Context {float : Type} (one_over : Z → float) (times : Z → float → float).

Lemma needed_frame_member (current : Z) (st : settings) (opts : draw_options)
    (sc : scene) needed f side t i :
  0 < frame_step st →
  get_needed_frames one_over times current st opts sc = Returns needed →
  (f, side, t, i) ∈ needed →
  ∃ k, 1 ≤ k ∧ i = k * frame_step st
       ∧ match side with
         | Before => f = current - i ∧ i ≤ frames_before st
                     ∧ (get_frame_range st sc).1 ≤ f
         | After => f = current + i ∧ i ≤ frames_after st
                    ∧ f ≤ (get_frame_range st sc).2
         end.
Proof.
  intros Hstep. unfold get_needed_frames.
  destruct (get_frame_range st sc) as [rs re]. simpl.
  destruct (use_frame_range st && _).
  { intros [= <-] Hin. by apply elem_of_nil in Hin. }
  destruct (py_range_multiples (frame_step st) (frames_before st) Hstep)
    as (offs_b & Hrb & Hob).
  destruct (py_range_multiples (frame_step st) (frames_after st) Hstep)
    as (offs_a & Hra & Hoa).
  rewrite Hrb, Hra.
  assert (∀ l, (f, side, t, i) ∈
      ((λ j, (current - j, Before,
              scaled times j (inv_max_of one_over (frames_before st)), j))
         <$> filter (λ j, rs ≤ current - j) offs_b) ++ l →
      (f, side, t, i) ∈ l ∨
      ∃ k, 1 ≤ k ∧ i = k * frame_step st
           ∧ match side with
             | Before => f = current - i ∧ i ≤ frames_before st ∧ rs ≤ f
             | After => f = current + i ∧ i ≤ frames_after st ∧ f ≤ re
             end) as Hb.
  { intros l [Hin|Hin]%elem_of_app; [|by left]. right.
    apply list_elem_of_fmap in Hin as (j & [= -> -> -> ->] & [? Hj]%list_elem_of_filter).
    apply Hob in Hj as (k & ? & -> & ?). by exists k. }
  assert ((f, side, t, i) ∈
      (λ j, (current + j, After,
             scaled times j (inv_max_of one_over (frames_after st)), j))
        <$> filter (λ j, current + j ≤ re) offs_a →
      ∃ k, 1 ≤ k ∧ i = k * frame_step st
           ∧ match side with
             | Before => f = current - i ∧ i ≤ frames_before st ∧ rs ≤ f
             | After => f = current + i ∧ i ≤ frames_after st ∧ f ≤ re
             end) as Ha.
  { intros Hin.
    apply list_elem_of_fmap in Hin as (j & [= -> -> -> ->] & [? Hj]%list_elem_of_filter).
    apply Hoa in Hj as (k & ? & -> & ?). by exists k. }
  destruct (show_before opts), (show_after opts); intros [= <-] Hin.
  - apply Hb in Hin as [Hin|?]; [by apply Ha|done].
  - rewrite <-(app_nil_r (_ <$> _)) in Hin.
    apply Hb in Hin as [Hin|?]; [by apply elem_of_nil in Hin|done].
  - by apply Ha.
  - by apply elem_of_nil in Hin.
Qed.

Lemma precache_frames_complete (sc : scene) (st : settings)
    (c : cache_state gpu_batch) (frames : list Z) (k : Z) :
  onion_skin_settings sc = Some st → 0 < frame_step st →
  get_precache_frames sc c 0 = Returns frames →
  (length frames < 10)%nat →
  1 ≤ k → k * frame_step st ≤ Z.max (frames_before st) (frames_after st) + 5 →
  (frame_current sc + k * frame_step st ≤ (get_frame_range st sc).2 →
   is_frame_cached c (frame_current sc + k * frame_step st) = false →
   frame_current sc + k * frame_step st ∈ frames)
  ∧ ((get_frame_range st sc).1 ≤ frame_current sc - k * frame_step st →
     is_frame_cached c (frame_current sc - k * frame_step st) = false →
     frame_current sc - k * frame_step st ∈ frames).
Proof.
  intros Hst Hstep Hret Hshort Hk Hle.
  destruct (py_range_multiples (frame_step st)
              (Z.max (frames_before st) (frames_after st) + 5) Hstep)
    as (offsets & Hrange & Hoff).
  unfold get_precache_frames in Hret. rewrite Hst in Hret.
  destruct (get_frame_range st sc) as [rs re]. rewrite Hrange in Hret.
  simpl in Hret. injection Hret as <-. rewrite length_take in Hshort.
  rewrite take_ge by lia.
  assert (k * frame_step st ∈ offsets) as Hin by (apply Hoff; eauto).
  split; simpl.
  - intros Hre Hc. rewrite sort_by_key_perm. apply elem_of_app. left.
    apply list_elem_of_filter. split; [done|]. apply list_elem_of_fmap. eauto.
  - intros Hrs Hc. rewrite sort_by_key_perm. apply elem_of_app. right.
    apply list_elem_of_filter. split; [done|]. apply list_elem_of_fmap. eauto.
Qed.

(** X23: the scheduler covers the drawing code's needs.  With a positive
    step, when the candidate list computed for both directions was not cut
    at 10, every frame [get_needed_frames] asks for around the current
    frame that is not cached is among the candidates. *)
Theorem precache_covers_needed_frames (sc : scene) (st : settings)
    (opts : draw_options) (c : cache_state gpu_batch)
    (needed : list (Z * ghost_side * py_number * Z)) (frames : list Z)
    (f : Z) (side : ghost_side) (t : py_number) (i : Z) :
  onion_skin_settings sc = Some st →
  0 < frame_step st →
  get_needed_frames one_over times (frame_current sc) st opts sc = Returns needed →
  get_precache_frames sc c 0 = Returns frames →
  (length frames < 10)%nat →
  (f, side, t, i) ∈ needed →
  is_frame_cached c f = false →
  f ∈ frames.
Proof.
  intros Hst Hstep Hneeded Hframes Hshort Hin Hc.
  destruct (needed_frame_member _ _ _ _ _ _ _ _ _ Hstep Hneeded Hin)
    as (k & Hk & -> & Hside).
  destruct side.
  - destruct Hside as (-> & Hle & Hrs).
    destruct (precache_frames_complete sc st c frames k) as [_ Hbehind];
      try done; [lia|]. by apply Hbehind.
  - destruct Hside as (-> & Hle & Hre).
    destruct (precache_frames_complete sc st c frames k) as [Hahead _];
      try done; [lia|]. by apply Hahead.
Qed.
End coverage.

(** ** [cache_frame] and [ensure_frames_cached] *)

Section frame_caching.
Context {gpu_batch : Type}.
Context (children : bobject → list bobject).
Context {float : Type} (one_over : Z → float) (times : Z → float → float).
Context (extract_all_meshes_merged :
           list bobject → scene → bool →
           option (list vertex) * option (list index) * prim_type).

Lemma cache_frame_last_frame opts items (w : draw_world gpu_batch) frame :
  V1._last_frame (dw_cache
     (cache_frame children extract_all_meshes_merged opts items w frame).2)
  = V1._last_frame (dw_cache w).
Proof.
  unfold cache_frame. destruct (V1.is_frame_cached _ _); [done|].
  destruct (get_mesh_objects children opts items) as [|o l]; [done|].
  destruct (extract_all_meshes_merged _ _ _) as [[verts indices] prim].
  destruct (V1.truthy verts && V1.truthy indices); [|done].
  simpl. apply v1_add_to_cache_last_frame.
Qed.

(** X24: what [cache_frame] leaves behind.  A frame already cached, or
    an empty mesh list, changes nothing at all; otherwise the scene now
    stands on the requested frame.  When it answers [True] (the capacity
    being positive) the frame is cached; when it answers [False] the cache
    is untouched. *)
Theorem cache_frame_result (opts : draw_options) (items : list (option bobject))
    (w : draw_world gpu_batch) (frame : Z) :
  (0 < V1._max_cache_size (dw_cache w))%nat →
  let r := cache_frame children extract_all_meshes_merged opts items w frame in
  (if r.1 then V1.is_frame_cached (dw_cache r.2) frame = true
   else dw_cache r.2 = dw_cache w)
  ∧ (if V1.is_frame_cached (dw_cache w) frame then r = (true, w)
     else match get_mesh_objects children opts items with
          | [] => r = (false, w)
          | _ => frame_current (dw_scene r.2) = frame
          end).
Proof.
  intros Hcap r. subst r. unfold cache_frame.
  destruct (V1.is_frame_cached (dw_cache w) frame) eqn:Hc; [done|].
  destruct (get_mesh_objects children opts items) as [|o l]; [done|].
  destruct (extract_all_meshes_merged _ _ _) as [[verts indices] prim].
  destruct (V1.truthy verts && V1.truthy indices) eqn:Ht; [|done].
  apply andb_true_iff in Ht as [Hv Hi]. simpl. split; [|done].
  by apply v1_add_to_cache_cached.
Qed.

(** X25: when [ensure_frames_cached] returns, the scene is on the frame
    it started from and [_last_frame] records that frame, so calling it
    again right away does nothing. *)
Theorem ensure_frames_cached_settles (st : settings) (opts : draw_options)
    (items : list (option bobject)) (w w' : draw_world gpu_batch) :
  ensure_frames_cached children one_over times extract_all_meshes_merged
                       st opts items w = (Returns (), w') →
  frame_current (dw_scene w') = frame_current (dw_scene w)
  ∧ V1._last_frame (dw_cache w') = frame_current (dw_scene w)
  ∧ ensure_frames_cached children one_over times extract_all_meshes_merged
                         st opts items w' = (Returns (), w').
Proof.
  unfold ensure_frames_cached at 1. unfold V1.get_last_frame.
  case_bool_decide as Hsame.
  - intros [= <-]. split_and!; [done|done|].
    unfold ensure_frames_cached, V1.get_last_frame.
    by rewrite bool_decide_eq_true_2.
  - destruct (get_needed_frames _ _ _ _ _ _) as [needed|]; [|done].
    set (w0 := dw_set_cache w _).
    set (w1 := foldl _ w0 needed).
    assert (V1._last_frame (dw_cache w1) = frame_current (dw_scene w)) as Hlast.
    { subst w1. assert (V1._last_frame (dw_cache w0) = frame_current (dw_scene w))
        as Hw0 by done.
      clearbody w0. revert w0 Hw0.
      induction needed as [|[[[fr sd] tt] ii] needed IH]; intros w0 Hw0; [done|].
      simpl. apply IH. by rewrite cache_frame_last_frame. }
    intros [= <-].
    assert (frame_current (dw_scene
              (if bool_decide (frame_current (dw_scene w1) ≠ frame_current (dw_scene w))
               then dw_frame_set w1 (frame_current (dw_scene w)) else w1))
            = frame_current (dw_scene w)) as Hcur.
    { by case_bool_decide as Hmoved. }
    assert (V1._last_frame (dw_cache
              (if bool_decide (frame_current (dw_scene w1) ≠ frame_current (dw_scene w))
               then dw_frame_set w1 (frame_current (dw_scene w)) else w1))
            = frame_current (dw_scene w)) as Hl.
    { by case_bool_decide. }
    split_and!; [done|done|].
    unfold ensure_frames_cached, V1.get_last_frame.
    rewrite bool_decide_eq_true_2; [done|]. by rewrite Hcur, Hl.
Qed.
End frame_caching.

(** ** Worked instances of the further properties *)

Lemma filled_wf (n : Z) : cache_wf (filled n).
Proof.
  unfold filled, run_adds.
  induction (add_triangle <$> seqZ 1 n) as [|c l IH] using rev_ind.
  - apply initial_state_wf.
  - rewrite foldl_app. simpl. by apply add_to_cache_wf.
Qed.

(** X2 on a cache holding frames 1 to 3: two lookups of frame 2. *)
Lemma get_batch_is_memoized_example :
  let first := get_batch true checked_batch_for_shader (filled 3) 2 in
  get_batch true (λ _ _ _, None) first.2 2
  = (Returns (Some (TRIS, tolist triangle_verts, tolist triangle_indices)),
     with_batch first.2 (_batch_cache first.2) (_cache_hits (filled 3) + 2)).
Proof.
  apply (get_batch_is_memoized true checked_batch_for_shader (λ _ _ _, None)
           (filled 3) (get_batch true checked_batch_for_shader (filled 3) 2).2 2
           (TRIS, tolist triangle_verts, tolist triangle_indices)).
  vm_compute; reflexivity.
Defined.

(** X3 on the same cache. *)
Lemma get_batch_serves_only_cached_frames_example :
  let r := get_batch true checked_batch_for_shader (filled 3) 2 in
  match r.1 with
  | Returns (Some b) =>
      is_frame_cached (filled 3) 2 = true
      ∧ r.2 = with_batch (filled 3) (<[2 := b]> (_batch_cache (filled 3)))
                         (_cache_hits (filled 3) + 1)
  | _ => r.2 = filled 3
  end.
Proof.
  apply (get_batch_serves_only_cached_frames true checked_batch_for_shader
           (filled 3) 2).
  apply filled_wf.
Defined.


(** X8: frame 1 of that cache is added again. *)
Lemma readd_refreshes_without_eviction_example :
  let s' := add_to_cache true (filled 3) 1 (Some new_verts) (Some new_indices) TRIS in
  OD.keys (_frame_cache s')
  = filter (λ x, x ≠ 1) (OD.keys (_frame_cache (filled 3))) ++ [1]
  ∧ OD.keys (_frame_cache s') ≡ₚ OD.keys (_frame_cache (filled 3))
  ∧ length (_frame_cache s') = length (_frame_cache (filled 3)).
Proof.
  apply (readd_refreshes_without_eviction true (filled 3) 1 new_verts new_indices TRIS).
  - by_evaluation.
  - vm_compute; lia.
  - by_evaluation.
  - by_evaluation.
  - by_evaluation.
Defined.

(** X9 on the scene at frame 100. *)
Lemma precache_frames_are_distinct_example :
  NoDup [102; 98; 104; 96; 106; 94; 108; 92; 110; 90]
  ∧ frame_current (scene_at 100) ∉ [102; 98; 104; 96; 106; 94; 108; 92; 110; 90].
Proof.
  apply (precache_frames_are_distinct (scene_at 100) (settings_with 10 10 2)
           (initial_state (gpu_batch := checked_batch)) 0).
  - reflexivity.
  - vm_compute; reflexivity.
  - reflexivity.
Defined.

(** X12 on a running scheduler with two frames pending. *)
Lemma flag_means_pending_is_kept_example :
  let w := world_at_100 [102; 98] true in
  flag_means_pending (_background_cache_step moving_cache_frame w).2
  ∧ flag_means_pending (start_background_caching w).2
  ∧ flag_means_pending (stop_background_caching w)
  ∧ flag_means_pending (on_frame_change w)
  ∧ flag_means_pending (on_load w)
  ∧ the_cache (start_background_caching w).2 = the_cache w
  ∧ the_scene (start_background_caching w).2 = the_scene w
  ∧ the_cache (on_frame_change w) = the_cache w
  ∧ the_scene (on_frame_change w) = the_scene w
  ∧ is_caching (stop_background_caching w) = false.
Proof.
  apply (flag_means_pending_is_kept moving_cache_frame (world_at_100 [102; 98] true)).
  intros _. simpl. discriminate.
Defined.

(** X13 on the same scheduler: frame 102 is taken, 98 stays. *)
Lemma background_step_consumes_head_example :
  let w := world_at_100 [102; 98] true in
  let r := _background_cache_step moving_cache_frame w in
  _pending_frames r.2 = [98]
  ∧ r.1 = Returns Again
  ∧ the_cache r.2 = the_cache (moving_cache_frame (set_pending w [98]) 102).2
  ∧ frame_current (the_scene r.2) = frame_current (the_scene w).
Proof.
  apply (background_step_consumes_head moving_cache_frame
           (world_at_100 [102; 98] true) 102 [98]).
  - intros w0 f. reflexivity.
  - reflexivity.
  - reflexivity.
Defined.

(** X15: the cube is tracked; the selection holds the cube, the rig and
    a lamp, and the rig is then picked as well. *)
Lemma adding_keeps_objects_distinct_example :
  let added := add_object_execute [Some cube] [cube; rig; lamp]
                 (initial_state (gpu_batch := checked_batch)) in
  let picked := add_from_picker_execute (Some rig) [Some cube]
                  (initial_state (gpu_batch := checked_batch)) in
  added.1.1 = [Some cube; Some rig]
  ∧ NoDup (existing_objects added.1.1)
  ∧ NoDup (existing_objects picked.1.2)
  ∧ picked.1.1.2 = None
  ∧ rig ∈ existing_objects picked.1.2.
Proof.
  destruct (adding_keeps_objects_distinct [Some cube] [cube; rig; lamp] rig
              (initial_state (gpu_batch := checked_batch)))
    as (Hnd & _ & _ & Hndp & _ & Hunset & Hin).
  - by_evaluation.
  - by_evaluation.
  - split; [reflexivity|]. split; [exact Hnd|]. split; [exact Hndp|].
    split; [exact Hunset|]. apply Hin. reflexivity.
Defined.

(** X16: three tracked items; index 5 is out of range, index 2 removes
    the last item and pulls the active index back to 1. *)
Lemma removing_respects_bounds_example :
  let items := [Some cube; Some rig; Some body] in
  let s := initial_state (gpu_batch := checked_batch) in
  remove_object_execute 5 items s = (items, s)
  ∧ remove_selected_execute items 5 s = (items, 5, s)
  ∧ (remove_object_execute 2 items s).1 = [Some cube; Some rig]
  ∧ 0 ≤ (remove_selected_execute items 2 s).1.2 < 2.
Proof.
  intros items s.
  destruct (removing_respects_bounds items 5 s) as [Hout _].
  destruct (removing_respects_bounds items 2 s) as [_ Hin].
  destruct Hout as [Hr Hs]; [unfold items; simpl; lia|].
  destruct Hin as (Hrem & _ & _ & Hactive); [unfold items; simpl; lia|].
  split; [exact Hr|]. split; [exact Hs|]. split; [exact Hrem|].
  apply Hactive. discriminate.
Defined.



(** X20: baking an empty cache with a [cache_frame] that fails. *)
Lemma bake_propagates_cache_frame_failure_example :
  ∃ w0 frame frames,
    py_range (get_frame_range (settings_with 10 10 2)
                (the_scene (world_at_100 [] false))).1
             ((get_frame_range (settings_with 10 10 2)
                 (the_scene (world_at_100 [] false))).2 + 1)
             (frame_step (settings_with 10 10 2))
    = Returns frames
    ∧ frame ∈ frames
    ∧ is_frame_cached (the_cache w0) frame = false
    ∧ failing_cache_frame w0 frame
      = (Raises, frame_set (world_at_100 [] false) 90).
Proof.
  apply (bake_propagates_cache_frame_failure failing_cache_frame
           (world_at_100 [] false) (frame_set (world_at_100 [] false) 90)
           (settings_with 10 10 2)).
  - reflexivity.
  - vm_compute; discriminate.
  - vm_compute; reflexivity.
Defined.

(** X21: the cube twice, the rig and an unset item. *)
Lemma get_mesh_objects_are_distinct_meshes_example :
  get_mesh_objects rig_children all_shown [Some cube; Some rig; Some cube; None]
  = [cube; body]
  ∧ NoDup (ob_name <$> get_mesh_objects rig_children all_shown
                          [Some cube; Some rig; Some cube; None])
  ∧ ob_type body = MESH
  ∧ ob_name cube ∈ ob_name <$> get_mesh_objects rig_children all_shown
                                 [Some cube; Some rig; Some cube; None].
Proof.
  destruct (get_mesh_objects_are_distinct_meshes rig_children all_shown
              [Some cube; Some rig; Some cube; None]) as (Hnd & Hall & Hcov).
  split; [by vm_compute|]. split; [exact Hnd|]. split.
  - apply (Hall body). by_evaluation.
  - apply (Hcov cube); [by_evaluation|reflexivity].
Defined.

(** X22 on the scene with three ghost frames each way. *)
Lemma needed_frames_are_in_reach_example :
  ∃ frames,
    get_needed_frames fraction_one_over fraction_times 100 (settings_with 3 3 2)
                      all_shown short_reach_scene = Returns frames
    ∧ (98, Before, PyFloat (2, 3), 2) ∈ frames
    ∧ NoDup (frames.*1.*1.*1).
Proof.
  destruct (needed_frames_are_in_reach fraction_one_over fraction_times 100
              (settings_with 3 3 2) all_shown short_reach_scene)
    as (frames & Hret & _ & Hnd & _).
  - vm_compute; reflexivity.
  - exists frames. split; [exact Hret|]. split; [|exact Hnd].
    vm_compute in Hret. injection Hret as <-. left.
Defined.

(** X23 on that scene with nothing cached: frame 98 is needed and is a
    candidate. *)
Lemma precache_covers_needed_frames_example :
  98 ∈ [102; 98; 104; 96; 106; 94; 108; 92].
Proof.
  apply (precache_covers_needed_frames fraction_one_over fraction_times
           short_reach_scene (settings_with 3 3 2) all_shown
           (initial_state (gpu_batch := checked_batch))
           [(98, Before, PyFloat (2, 3), 2); (102, After, PyFloat (2, 3), 2)]
           [102; 98; 104; 96; 106; 94; 108; 92]
           98 Before (PyFloat (2, 3)) 2).
  - reflexivity.
  - vm_compute; reflexivity.
  - vm_compute; reflexivity.
  - vm_compute; reflexivity.
  - vm_compute; lia.
  - left.
  - vm_compute; reflexivity.
Defined.

(** X24: caching frame 98 in the fresh drawing state. *)
Lemma cache_frame_result_example :
  let r := cache_frame rig_children triangle_extract all_shown [Some cube]
                       fresh_draw_world 98 in
  (if r.1 then V1.is_frame_cached (dw_cache r.2) 98 = true
   else dw_cache r.2 = dw_cache fresh_draw_world)
  ∧ (if V1.is_frame_cached (dw_cache fresh_draw_world) 98
     then r = (true, fresh_draw_world)
     else match get_mesh_objects rig_children all_shown [Some cube] with
          | [] => r = (false, fresh_draw_world)
          | _ => frame_current (dw_scene r.2) = 98
          end).
Proof.
  apply (cache_frame_result rig_children triangle_extract all_shown [Some cube]
           fresh_draw_world 98).
  vm_compute; lia.
Defined.

(** X25: a first call in the fresh drawing state. *)
Lemma ensure_frames_cached_settles_example :
  let w' := (ensure_frames_cached rig_children fraction_one_over fraction_times
               triangle_extract (settings_with 3 3 2) all_shown [Some cube]
               fresh_draw_world).2 in
  frame_current (dw_scene w') = 100
  ∧ V1._last_frame (dw_cache w') = 100
  ∧ ensure_frames_cached rig_children fraction_one_over fraction_times
      triangle_extract (settings_with 3 3 2) all_shown [Some cube] w'
    = (Returns (), w').
Proof.
  apply (ensure_frames_cached_settles rig_children fraction_one_over fraction_times
           triangle_extract (settings_with 3 3 2) all_shown [Some cube]
           fresh_draw_world).
  vm_compute; reflexivity.
Defined.
